(** * snoowrap: the paginated Listing (objects/Listing.js)
    A shallow embedding of the [Listing] class: its constructor, the
    [is_finished] getter, [_clone], [fetch_more] with its two pagination
    paths, [fetch_all] and [fetch_until].
    JavaScript objects live in a store and are named by their address, so
    that the sharing between a Listing and its clone is visible: the store
    holds the Listing objects, the More objects and the log of the network
    calls issued so far. The methods are functions from store to outcome
    and store; a thrown exception and a rejected promise are different
    outcomes.
    A chain of page requests need not end (an endless source, an
    unbounded amount), so [fetch_more] takes a fuel that bounds the
    number of page requests of one call; the calls that make no page
    request need none. *)

From Stdlib Require Import ZArith Lia.
From stdpp Require Import base numbers strings option list.

Open Scope string_scope.
Open Scope list_scope.
Open Scope nat_scope.

(** ** JavaScript values *)

(** Numbers: the integers, the two infinities and NaN. [amount] and
    [length] are counts of items; [fetch_all] passes [Infinity]. *)
Inductive num : Type :=
| Fin (z : Z)
| PosInf
| NegInf
| NaN.

Inductive jsval : Type :=
| VUndefined
| VNull
| VBool (b : bool)
| VNum (n : num)
| VStr (s : string).

(** [_.isNumber] *)
Definition isNumber (v : jsval) : bool :=
  match v with VNum _ => true | _ => false end.

(** [n <= 0] *)
Definition num_le0 (n : num) : bool :=
  match n with
  | Fin z => (z <=? 0)%Z
  | NegInf => true
  | PosInf | NaN => false
  end.

(** [0 < n] *)
Definition num_pos (n : num) : bool :=
  match n with
  | Fin z => (0 <? z)%Z
  | PosInf => true
  | NegInf | NaN => false
  end.

(** [n - k] for an array length [k] *)
Definition num_sub (n : num) (k : nat) : num :=
  match n with
  | Fin z => Fin (z - Z.of_nat k)
  | other => other
  end.

(** [n + 1] *)
Definition num_succ (n : num) : num :=
  match n with
  | Fin z => Fin (z + 1)
  | other => other
  end.

(** [k <= n] for a count [k] *)
Definition count_le (k : nat) (n : num) : Prop :=
  match n with
  | Fin z => (Z.of_nat k <= z)%Z
  | PosInf => True
  | NegInf | NaN => False
  end.

(** [k < n] for a count [k] *)
Definition count_lt (k : nat) (n : num) : Prop :=
  match n with
  | Fin z => (Z.of_nat k < z)%Z
  | PosInf => True
  | NegInf | NaN => False
  end.

(** [!v] is false on these *)
Definition truthy (v : jsval) : bool :=
  match v with
  | VUndefined | VNull => false
  | VBool b => b
  | VNum (Fin z) => negb (z =? 0)%Z
  | VNum NaN => false
  | VNum _ => true
  | VStr s => negb (String.eqb s "")
  end.

(** [v === null] *)
Definition is_null (v : jsval) : bool :=
  match v with VNull => true | _ => false end.

(** Plain objects used as string-keyed maps ([_query], [qs]); property
    order is kept. *)
Definition jsobj : Type := list (string * jsval).

Fixpoint prop (k : string) (o : jsobj) : jsval :=
  match o with
  | [] => VUndefined
  | (k', v) :: o' => if String.eqb k k' then v else prop k o'
  end.

Fixpoint set_prop (k : string) (v : jsval) (o : jsobj) : jsobj :=
  match o with
  | [] => [(k, v)]
  | (k', v') :: o' =>
      if String.eqb k k' then (k, v) :: o' else (k', v') :: set_prop k v o'
  end.

(** [_.defaults(dst, src)]: a property of [src] is copied where [dst]
    resolves it to [undefined]. *)
Definition defaults (dst src : jsobj) : jsobj :=
  fold_left
    (fun d kv => match prop kv.1 d with
                 | VUndefined => set_prop kv.1 kv.2 d
                 | _ => d
                 end)
    src dst.

(** ** Objects *)

(** Addresses in the store. *)
Abbreviation loc := nat (only parsing).

(** An element of a Listing or of a [children] array: a content object
    (a comment, a submission, a message; named, and opaque to this
    module) or an instance of [More], held by reference. *)
Inductive elem : Type :=
| Item (name : string)
| MoreRef (l : loc).

Definition is_more (e : elem) : bool :=
  match e with MoreRef _ => true | Item _ => false end.

(** A More object: the ids of the comments still to be fetched. *)
Record More : Type := mkMore { children : list string }.

(** What comes back from reddit, before it is turned into objects: the
    elements of the array-like a response is, and its two cursors. *)
Inductive wire_elem : Type :=
| WItem (name : string)
| WMore (ids : list string).

Record wire_page : Type := mkPage {
  w_items : list wire_elem;
  w_after : jsval;
  w_before : jsval
}.

Inductive http_method : Type := GET | POST.

Record Listing : Type := mkListing {
  items : list elem;            (* the array part of the object *)
  _query : jsobj;
  _show : string;
  _transform : wire_page -> wire_page;
  _method : http_method;
  _is_comment_list : bool;
  _limit : jsval;
  _link_id : jsval;
  _uri : jsval;
  _more : option loc;           (* [None] is [undefined] *)
  after : jsval;
  before : jsval
}.

Definition INTERNAL_DEFAULTS : Listing := {|
  items := [];
  _query := [];
  _show := "all";
  _transform := fun response => response;
  _method := GET;
  _is_comment_list := false;
  _limit := VUndefined;
  _link_id := VUndefined;
  _uri := VUndefined;
  _more := None;
  after := VUndefined;
  before := VUndefined
|}.

(** The [options] argument of the constructor. A key with a default other
    than [undefined] is [None] when the caller leaves it out. *)
Record ListingOptions : Type := mkOptions {
  o_children : option (list elem);
  o_query : option jsobj;
  o_show : option string;
  o_transform : option (wire_page -> wire_page);
  o_method : option http_method;
  o_is_comment_list : option bool;
  o_limit : jsval;
  o_link_id : jsval;
  o_uri : jsval;
  o_more : option loc;
  o_after : jsval;
  o_before : jsval
}.

(** [{}] *)
Definition no_options : ListingOptions := {|
  o_children := None; o_query := None; o_show := None; o_transform := None;
  o_method := None; o_is_comment_list := None;
  o_limit := VUndefined; o_link_id := VUndefined; o_uri := VUndefined;
  o_more := None; o_after := VUndefined; o_before := VUndefined
|}.

(** Field updates on a Listing object. *)
Definition with_items (xs : list elem) (L : Listing) : Listing :=
  {| items := xs; _query := _query L; _show := _show L;
     _transform := _transform L; _method := _method L;
     _is_comment_list := _is_comment_list L; _limit := _limit L;
     _link_id := _link_id L; _uri := _uri L; _more := _more L;
     after := after L; before := before L |}.

Definition with_more (m : option loc) (L : Listing) : Listing :=
  {| items := items L; _query := _query L; _show := _show L;
     _transform := _transform L; _method := _method L;
     _is_comment_list := _is_comment_list L; _limit := _limit L;
     _link_id := _link_id L; _uri := _uri L; _more := m;
     after := after L; before := before L |}.

Definition with_is_comment_list (b : bool) (L : Listing) : Listing :=
  {| items := items L; _query := _query L; _show := _show L;
     _transform := _transform L; _method := _method L;
     _is_comment_list := b; _limit := _limit L;
     _link_id := _link_id L; _uri := _uri L; _more := _more L;
     after := after L; before := before L |}.

Definition with_after (v : jsval) (L : Listing) : Listing :=
  {| items := items L; _query := _query L; _show := _show L;
     _transform := _transform L; _method := _method L;
     _is_comment_list := _is_comment_list L; _limit := _limit L;
     _link_id := _link_id L; _uri := _uri L; _more := _more L;
     after := v; before := before L |}.

Definition with_before (v : jsval) (L : Listing) : Listing :=
  {| items := items L; _query := _query L; _show := _show L;
     _transform := _transform L; _method := _method L;
     _is_comment_list := _is_comment_list L; _limit := _limit L;
     _link_id := _link_id L; _uri := _uri L; _more := _more L;
     after := after L; before := v |}.

(** [constructor (options = {}, _ac)]: the object [new Listing] builds.
    [_.assign(this, options.children || [])] fills the array part,
    [_.defaults] the named fields, and a trailing More instance is popped
    into [_more]. *)
Definition constructor (options : ListingOptions) : Listing :=
  let this := {|
    items := default [] (o_children options);
    _query := default (_query INTERNAL_DEFAULTS) (o_query options);
    _show := default (_show INTERNAL_DEFAULTS) (o_show options);
    _transform := default (_transform INTERNAL_DEFAULTS) (o_transform options);
    _method := default (_method INTERNAL_DEFAULTS) (o_method options);
    _is_comment_list :=
      default (_is_comment_list INTERNAL_DEFAULTS) (o_is_comment_list options);
    _limit := o_limit options;
    _link_id := o_link_id options;
    _uri := o_uri options;
    _more := o_more options;
    after := o_after options;
    before := o_before options
  |} in
  match last (default [] (o_children options)) with
  | Some (MoreRef l) =>
      (* this._more = this.pop(); this._is_comment_list = true *)
      with_is_comment_list true
        (with_more (Some l) (with_items (removelast (items this)) this))
  | _ => this
  end.

(** ** The store and the network *)

Record request : Type := mkRequest {
  rq_method : http_method;
  rq_uri : jsval;
  rq_qs : jsobj
}.

(** The argument of [fetch_more] once parsed: [amount], [skip_replies],
    and [length] when the object came through [fetch_until]. *)
Record fetch_options : Type := mkFetch {
  amount : jsval;
  skip_replies : jsval;
  length_ : jsval
}.

Inductive event : Type :=
| PageCall (r : request)
| BulkCall (ids : list string) (skip_replies : jsval).

Record store : Type := mkStore {
  listings : list Listing;
  mores : list More;
  log : list event
}.

(** The requester [_ac]: what it answers to a call, given the calls made
    before; [None] is a failed call. For a page request the answer is the
    page; for a bulk request it is how many of the ids asked for get
    resolved, in their order. *)
Record network : Type := mkNetwork {
  page_for : list event -> request -> option wire_page;
  bulk_for : list event -> list string -> jsval -> option nat
}.

Inductive error : Type :=
| InvalidMethodCallError (message : string)
| TypeError
| TransportError.

(** How a call ends: a value (for the asynchronous methods, the value the
    promise fulfils with), a rejected promise, an exception thrown by the
    call itself, or a chain of requests longer than the fuel. *)
Inductive outcome (A : Type) : Type :=
| Resolved (a : A)
| Rejected (e : error)
| Thrown (e : error)
| OutOfFuel.
Arguments Resolved {A} a.
Arguments Rejected {A} e.
Arguments Thrown {A} e.
Arguments OutOfFuel {A}.

Definition M (A : Type) : Type := store -> outcome A * store.

Definition ret {A} (a : A) : M A := fun h => (Resolved a, h).

Definition bind {A B} (m : M A) (k : A -> M B) : M B :=
  fun h =>
    match m h with
    | (Resolved a, h') => k a h'
    | (Rejected e, h') => (Rejected e, h')
    | (Thrown e, h') => (Thrown e, h')
    | (OutOfFuel, h') => (OutOfFuel, h')
    end.

Notation "'let!' x ':=' m 'in' k" := (bind m (fun x => k))
  (at level 10, x name, m at level 100, k at level 200).

Definition throw {A} (e : error) : M A := fun h => (Thrown e, h).

(** The body of an [async] function or of a [then] callback: what it
    throws rejects the promise. *)
Definition async {A} (m : M A) : M A :=
  fun h =>
    match m h with
    | (Thrown e, h') => (Rejected e, h')
    | r => r
    end.

Definition read_listing (l : loc) : M Listing :=
  fun h =>
    match listings h !! l with
    | Some L => (Resolved L, h)
    | None => (Thrown TypeError, h)
    end.

Definition update_listing (l : loc) (f : Listing -> Listing) : M unit :=
  fun h =>
    match listings h !! l with
    | Some L =>
        (Resolved tt,
         {| listings := <[l := f L]> (listings h);
            mores := mores h; log := log h |})
    | None => (Thrown TypeError, h)
    end.

Definition alloc_listing (L : Listing) : M loc :=
  fun h =>
    (Resolved (length (listings h)),
     {| listings := listings h ++ [L]; mores := mores h; log := log h |}).

(** The More object at an address. An address outside the store reads as
    a More without children. *)
Definition more_at (h : store) (l : loc) : More :=
  default (mkMore []) (mores h !! l).

Definition alloc_more (m : More) : M loc :=
  fun h =>
    (Resolved (length (mores h)),
     {| listings := listings h; mores := mores h ++ [m]; log := log h |}).

Definition log_event (e : event) (h : store) : store :=
  {| listings := listings h; mores := mores h; log := log h ++ [e] |}.

(** ** The requester *)

(** A response as the Listing sees it: an array of objects with the two
    cursors. *)
Record response : Type := mkResponse {
  r_items : list elem;
  r_after : jsval;
  r_before : jsval
}.

(** The objects of a page. Every More among them is a new object; [base]
    is the first free address. *)
Fixpoint deliver (base : loc) (ws : list wire_elem) : list elem * list More :=
  match ws with
  | [] => ([], [])
  | WItem name :: ws' =>
      let (es, ms) := deliver base ws' in (Item name :: es, ms)
  | WMore ids :: ws' =>
      let (es, ms) := deliver (S base) ws' in
      (MoreRef base :: es, mkMore ids :: ms)
  end.

(** [this._ac[`_${this._method}`]({uri, qs}).then(this._transform)]: one
    call; it is logged whether it succeeds or not. The transform is
    applied to what came over the wire, and the objects are built from
    its result. *)
Definition call (net : network) (r : request)
    (transform : wire_page -> wire_page) : M response :=
  fun h =>
    match page_for net (log h) r with
    | None => (Rejected TransportError, log_event (PageCall r) h)
    | Some w =>
        let page := transform w in
        let (es, ms) := deliver (length (mores h)) (w_items page) in
        (Resolved {| r_items := es; r_after := w_after page;
                     r_before := w_before page |},
         {| listings := listings h; mores := mores h ++ ms;
            log := log h ++ [PageCall r] |})
    end.

(** ** More (objects/More.js) *)

(** [options.amount], which [fetch_more] has checked to be a number
    before either pagination path runs. *)
Definition amount_of (options : fetch_options) : num :=
  match amount options with VNum n => n | _ => NaN end.

(** The first [n] ids. *)
Definition take_amount (n : num) (ids : list string) : list string :=
  match n with
  | Fin z => take (Z.to_nat z) ids
  | PosInf => ids
  | NegInf | NaN => []
  end.

(** Modelled from the spec: [More.prototype._clone], whose module
    (objects/More.js) is not among the sources. The spec has every fetch
    operation work on a clone that shares no mutable state with the
    original: the clone is a new More object with its own copy of
    [children]. *)
Definition More_clone (l : loc) : M loc :=
  fun h => alloc_more (mkMore (children (more_at h l))) h.

(** Modelled from the spec: [More.prototype.fetch_more], whose module
    (objects/More.js) is not among the sources. It asks the bulk endpoint
    for the first [amount] pending ids, with one call; the endpoint
    resolves some prefix of them into full items. It returns the resolved
    items together with a node for what remains (none if nothing
    remains); the node it is called on is left as it was. [skip_replies]
    selects the endpoint. A failed call rejects. *)
Definition More_fetch_more (net : network) (l : loc)
    (options : fetch_options) : M (list elem * option More) :=
  fun h =>
    let pending := children (more_at h l) in
    let asked := take_amount (amount_of options) pending in
    let skip := skip_replies options in
    match bulk_for net (log h) asked skip with
    | Some k =>
        let ids := take k asked in
        let rest := drop (length ids) pending in
        (Resolved (Item <$> ids,
                   match rest with [] => None | _ => Some (mkMore rest) end),
         log_event (BulkCall asked skip) h)
    | None => (Rejected TransportError, log_event (BulkCall asked skip) h)
    end.

(** [more.children.splice(0, count)] *)
Definition splice_children (l : loc) (count : Z) : M unit :=
  fun h =>
    (Resolved tt,
     {| listings := listings h;
        mores := <[l := mkMore (drop (Z.to_nat count) (children (more_at h l)))]>
                   (mores h);
        log := log h |}).

(** ** Listing *)

(** [get is_finished ()] *)
Definition is_finished (h : store) (this : Listing) : bool :=
  match _more this with
  | Some l => negb (0 <? length (children (more_at h l)))
  | None =>
      negb (truthy (_uri this))
      || (is_null (after this) && is_null (before this))
  end.

(** [new Listing(options, _ac)] *)
Definition new_Listing (options : ListingOptions) : M loc :=
  alloc_listing (constructor options).

(** The [properties] object that [_clone] hands to the constructor:
    [_.pick(this, _.keys(INTERNAL_DEFAULTS))] with [_more] replaced and
    [children] set to [_.toArray(this)]. *)
Definition clone_properties (this : Listing) (more : option loc)
    : ListingOptions := {|
  o_children := Some (items this);
  o_query := Some (_query this);
  o_show := Some (_show this);
  o_transform := Some (_transform this);
  o_method := Some (_method this);
  o_is_comment_list := Some (_is_comment_list this);
  o_limit := _limit this;
  o_link_id := _link_id this;
  o_uri := _uri this;
  o_more := more;
  o_after := after this;
  o_before := before this
|}.

(** [_clone ()] *)
Definition _clone (this : loc) : M loc :=
  let! L := read_listing this in
  let! more := match _more L with
               | Some l => let! l' := More_clone l in ret (Some l')
               | None => ret None
               end in
  new_Listing (clone_properties L more).

(** [cloned.push(...array)] *)
Definition push (l : loc) (xs : list elem) : M unit :=
  update_listing l (fun C => with_items (items C ++ xs) C).

(** The argument of [fetch_more]: an object, or any other value, which
    stands for the amount. *)
Inductive fetch_arg : Type :=
| ArgObject (o : fetch_options)
| ArgValue (v : jsval).

Definition with_amount (v : jsval) (o : fetch_options) : fetch_options :=
  {| amount := v; skip_replies := skip_replies o; length_ := length_ o |}.

(** The request of [_fetch_more_regular]: the method, and the object
    [{uri: this._uri, qs: _.defaults({after, before, limit, show},
    this._query)}]. *)
Definition page_request (this : Listing) (options : fetch_options) : request :=
  let limit := if _is_comment_list this
               then num_succ (amount_of options)
               else amount_of options in
  {| rq_method := _method this;
     rq_uri := _uri this;
     rq_qs := defaults [("after", after this); ("before", before this);
                        ("limit", VNum limit); ("show", VStr (_show this))]
                       (_query this) |}.

(** [async _fetch_more_regular (options)]; [fetch_more] is the method it
    calls on the clone. *)
Definition _fetch_more_regular (net : network)
    (fetch_more : loc -> fetch_arg -> M loc)
    (this : loc) (options : fetch_options) : M loc :=
  async (
    let! L := read_listing this in
    let! response := call net (page_request L options) (_transform L) in
    let! cloned := _clone this in
    let! _ := push cloned (r_items response) in
    let! _ := update_listing cloned (with_before (r_before response)) in
    let! _ := update_listing cloned (with_after (r_after response)) in
    fetch_more cloned
      (ArgObject
         (with_amount
            (VNum (num_sub (amount_of options) (length (r_items response))))
            options))).

(** [async _fetch_more_comments (...args)] *)
Definition _fetch_more_comments (net : network)
    (this : loc) (options : fetch_options) : M loc :=
  async (
    let! cloned := _clone this in
    let! L := read_listing this in
    match _more L with
    | Some l =>
        let! more_comments := More_fetch_more net l options in
        let! _ := push cloned more_comments.1 in
        let! C := read_listing cloned in
        let! L' := read_listing this in
        match _more C with
        | Some lc =>
            let! _ := splice_children lc
                   (Z.of_nat (length (items C)) - Z.of_nat (length (items L'))) in
            ret cloned
        | None => throw TypeError
        end
    | None => ret cloned
    end).

Definition no_amount : string :=
  "Failed to fetch Listing. (No amount specified.)".

(** [_.defaults(_.isObject(options) ? options : {amount: options},
    {skip_replies: false})] *)
Definition parse_options (options : fetch_arg) : fetch_options :=
  let o := match options with
           | ArgObject o => o
           | ArgValue v =>
               {| amount := v; skip_replies := VUndefined;
                  length_ := VUndefined |}
           end in
  {| amount := amount o;
     skip_replies := match skip_replies o with
                     | VUndefined => VBool false
                     | v => v
                     end;
     length_ := length_ o |}.

(** [fetch_more (options)]. [fuel] bounds the number of page requests of
    the chain. *)
Fixpoint fetch_more (net : network) (fuel : nat)
    (this : loc) (options : fetch_arg) : M loc :=
  let parsed_options := parse_options options in
  match amount parsed_options with
  | VNum n =>
      let! L := read_listing this in
      fun h =>
        if num_le0 n || is_finished h L
        then _clone this h
        else match _more L with
             | Some _ => _fetch_more_comments net this parsed_options h
             | None =>
                 match fuel with
                 | O => (OutOfFuel, h)
                 | S fuel' =>
                     _fetch_more_regular net (fetch_more net fuel')
                       this parsed_options h
                 end
             end
  | _ => throw (InvalidMethodCallError no_amount)
  end.

(** [fetch_all (options)] *)
Definition fetch_all (net : network) (fuel : nat)
    (this : loc) (options : fetch_options) : M loc :=
  fetch_more net fuel this (ArgObject (with_amount (VNum PosInf) options)).

(** [fetch_until (options)] *)
Definition fetch_until (net : network) (fuel : nat)
    (this : loc) (options : fetch_options) : M loc :=
  match length_ options with
  | VNum n =>
      let! L := read_listing this in
      fetch_more net fuel this
        (ArgObject (with_amount (VNum (num_sub n (length (items L)))) options))
  | _ => throw (InvalidMethodCallError no_amount)
  end.

(** * Definitions used by the statements *)

(** ** Listings and arguments *)

(** The last element is an instance of [More]. *)
Definition ends_with_more (xs : list elem) : bool :=
  match last xs with Some (MoreRef _) => true | _ => false end.

(** The element is not a placeholder. *)
Definition not_more (e : elem) : Prop := is_more e = false.

(** No element is a placeholder. *)
Definition no_more (xs : list elem) : bool :=
  forallb (fun e => negb (is_more e)) xs.

(** The amount a call of [fetch_more] is made with. *)
Definition arg_amount (options : fetch_arg) : jsval :=
  match options with
  | ArgObject o => amount o
  | ArgValue v => v
  end.



(** Two arguments ask for the same fetch: same amount, same
    [skip_replies] once defaulted. *)
Definition same_fetch (o1 o2 : fetch_arg) : Prop :=
  amount (parse_options o1) = amount (parse_options o2)
  /\ skip_replies (parse_options o1) = skip_replies (parse_options o2).

(** [{length: N}] *)
Definition length_only (N : num) : fetch_options :=
  {| amount := VUndefined; skip_replies := VUndefined; length_ := VNum N |}.

(** ** Assumptions on the requester *)

(** The page limit a request asks for. *)
Definition rq_limit (r : request) : jsval := prop "limit" (rq_qs r).

(** Every page the requester delivers for a request with a positive
    limit, once transformed, is no longer than that limit. *)
Definition honours_limit (net : network) (T : wire_page -> wire_page)
    : Prop :=
  forall hist r w lim,
    page_for net hist r = Some w ->
    rq_limit r = VNum lim ->
    num_pos lim = true ->
    count_le (length (w_items (T w))) lim.

Definition is_witem (w : wire_elem) : bool :=
  match w with WItem _ => true | WMore _ => false end.

(** No delivered page carries a More placeholder. *)
Definition plain_pages (net : network) (T : wire_page -> wire_page) : Prop :=
  forall hist r w,
    page_for net hist r = Some w ->
    forallb is_witem (w_items (T w)) = true.

(** The bulk endpoint resolves every id it is asked for. *)
Definition complete_bulk (net : network) : Prop :=
  forall hist asked skip k,
    bulk_for net hist asked skip = Some k -> length asked <= k.

(** ** The stores the operations leave *)

(** The address and the content of the More that [_clone] makes. *)
Definition cloned_more (h : store) (A : Listing) : option loc :=
  match _more A with
  | Some _ => Some (length (mores h))
  | None => None
  end.

Definition cloned_mores (h : store) (A : Listing) : list More :=
  match _more A with
  | Some l => [mkMore (children (more_at h l))]
  | None => []
  end.

Definition clone_object (h : store) (A : Listing) : Listing :=
  constructor (clone_properties A (cloned_more h A)).

Definition clone_store (h : store) (A : Listing) : store :=
  {| listings := listings h ++ [clone_object h A];
     mores := mores h ++ cloned_mores h A;
     log := log h |}.

(** The store a successful [_fetch_more_comments] leaves: the clone with
    the resolved items pushed, and the ids accounted for spliced off the
    [children] of the clone's More, which sits at [lc]. *)
Definition after_comments (h : store) (A : Listing) (options : fetch_options)
    (asked ids : list string) (lc : loc) : store :=
  let C := with_items (items (clone_object h A) ++ (Item <$> ids))
             (clone_object h A) in
  let ms := mores h ++ cloned_mores h A in
  {| listings := listings h ++ [C];
     mores :=
       <[lc := mkMore
                 (drop (Z.to_nat (Z.of_nat (length (items C))
                                  - Z.of_nat (length (items A))))
                    (children (default (mkMore []) (ms !! lc))))]> ms;
     log := log h ++ [BulkCall asked (skip_replies options)] |}.

(** The store in which [_fetch_more_regular] calls [fetch_more] on the
    clone: the objects of the page are delivered, and the clone holds the
    items of the page and its cursors. *)
Definition regular_store (h : store) (A : Listing) (options : fetch_options)
    (page : wire_page) : store :=
  let C := constructor (clone_properties A None) in
  let d := deliver (length (mores h)) (w_items page) in
  {| listings :=
       listings h ++
       [with_after (w_after page)
          (with_before (w_before page) (with_items (items C ++ d.1) C))];
     mores := mores h ++ d.2;
     log := log h ++ [PageCall (page_request A options)] |}.

Definition residual_options (options : fetch_options) (page : wire_page)
    : fetch_arg :=
  ArgObject
    (with_amount
       (VNum (num_sub (amount_of options) (length (w_items page)))) options).

(** ** What is kept and what is added *)




(** The result has at most [max 0 n] elements more. *)
Definition growth_ok (k0 k1 : nat) (n : num) : Prop :=
  match n with
  | Fin z => (Z.of_nat k1 <= Z.of_nat k0 + Z.max 0 z)%Z
  | NegInf => k1 <= k0
  | PosInf | NaN => True
  end.

(** The result has at least [n] elements more. *)
Definition reached (k0 k1 : nat) (n : num) : Prop :=
  match n with
  | Fin z => (Z.of_nat k0 + z <= Z.of_nat k1)%Z
  | _ => False
  end.

(** ** The wording of the specification *)

(** The characterisation of [is_finished] as the specification words it:
    three alternatives, joined by "or". *)
Definition finished_as_specified (h : store) (L : Listing) : Prop :=
  (exists l, _more L = Some l /\ children (more_at h l) = [])
  \/ truthy (_uri L) = false
  \/ (after L = VNull /\ before L = VNull).


(** ** Listings, stores and requesters of the examples *)

(** The comments of a submission as reddit sends them: one comment, then
    a placeholder for two more; both cursors are [null] and there is no
    uri. *)
Definition comments_options : ListingOptions := {|
  o_children := Some [Item "t1_c1"; MoreRef 0];
  o_query := None; o_show := None; o_transform := None; o_method := None;
  o_is_comment_list := None;
  o_limit := VUndefined; o_link_id := VUndefined; o_uri := VUndefined;
  o_more := None; o_after := VNull; o_before := VNull
|}.

Definition comments_store : store := {|
  listings := [constructor comments_options];
  mores := [mkMore ["c2"; "c3"]];
  log := []
|}.

(** A Listing for a subreddit page that has not been fetched yet. *)
Definition unfetched_options : ListingOptions := {|
  o_children := None;
  o_query := None; o_show := None; o_transform := None; o_method := None;
  o_is_comment_list := None;
  o_limit := VUndefined; o_link_id := VUndefined; o_uri := VStr "r/all/new";
  o_more := None; o_after := VUndefined; o_before := VUndefined
|}.

(** Children with two placeholders at the end. *)
Definition two_placeholders : ListingOptions := {|
  o_children := Some [Item "t1_c1"; MoreRef 0; MoreRef 1];
  o_query := None; o_show := None; o_transform := None; o_method := None;
  o_is_comment_list := None;
  o_limit := VUndefined; o_link_id := VUndefined; o_uri := VUndefined;
  o_more := None; o_after := VNull; o_before := VNull
|}.




(** The example of the specification: two posts fetched, a cursor for the
    next page, and a source that answers the first call with the last
    two posts and [null] cursors. *)
Definition posts_options : ListingOptions := {|
  o_children := Some [Item "p1"; Item "p2"];
  o_query := None; o_show := None; o_transform := None; o_method := None;
  o_is_comment_list := None;
  o_limit := VUndefined; o_link_id := VUndefined; o_uri := VStr "r/all/new";
  o_more := None; o_after := VStr "c3"; o_before := VNull
|}.

Definition posts_store : store :=
  {| listings := [constructor posts_options]; mores := []; log := [] |}.

(** The replies of a comment before any is fetched: flagged as a comment
    list, with a uri and without a More node. *)
Definition replies_options : ListingOptions := {|
  o_children := None;
  o_query := Some [("comment", VStr "c0")]; o_show := None;
  o_transform := None; o_method := None;
  o_is_comment_list := Some true;
  o_limit := VUndefined; o_link_id := VUndefined;
  o_uri := VStr "comments/4e60m3";
  o_more := None; o_after := VUndefined; o_before := VUndefined
|}.

Definition replies_store : store :=
  {| listings := [constructor replies_options]; mores := []; log := [] |}.

(** A requester whose every call fails. *)
Definition offline : network :=
  {| page_for := fun _ _ => None; bulk_for := fun _ _ _ => None |}.


(** A source with two more posts, which returns no more of them than the
    limit asks for, and nothing after its first answer. *)
Definition last_page : network := {|
  page_for := fun hist r =>
    match hist, rq_limit r with
    | [], VNum (Fin z) =>
        Some (mkPage (take (Z.to_nat z) [WItem "p3"; WItem "p4"]) VNull VNull)
    | [], VNum PosInf => Some (mkPage [WItem "p3"; WItem "p4"] VNull VNull)
    | [], _ => None
    | _, _ => Some (mkPage [] VNull VNull)
    end;
  bulk_for := fun _ asked _ => Some (length asked)
|}.

(** A source that answers every call with three posts, whatever the
    limit. *)
Definition three_posts : network := {|
  page_for := fun _ _ =>
    Some (mkPage [WItem "p3"; WItem "p4"; WItem "p5"] VNull VNull);
  bulk_for := fun _ asked _ => Some (length asked)
|}.

(** A thread of three replies, served up to the limit of each request. *)
Definition three_replies : network := {|
  page_for := fun hist r =>
    match hist, rq_limit r with
    | [], VNum (Fin z) =>
        Some (mkPage (take (Z.to_nat z) [WItem "c1"; WItem "c2"; WItem "c3"])
                VNull VNull)
    | _, _ => None
    end;
  bulk_for := fun _ asked _ => Some (length asked)
|}.

(** ** Page Listings *)

(** A Listing that is paginated by page requests only: it has no More
    node and none of its elements is a placeholder. *)
Definition page_listing (B : Listing) : Prop :=
  _more B = None /\ no_more (items B) = true.

(** [R] has the source and the settings of [A]: every field but the
    elements, the cursors and the More node. *)
Definition same_source (A R : Listing) : Prop :=
  _uri R = _uri A /\ _method R = _method A /\ _query R = _query A
  /\ _show R = _show A /\ _transform R = _transform A
  /\ _is_comment_list R = _is_comment_list A
  /\ _limit R = _limit A /\ _link_id R = _link_id A.

(** The event is a page request to the uri of [A], with its method and
    its [show]. *)
Definition to_source (A : Listing) (e : event) : Prop :=
  match e with
  | PageCall r =>
      rq_uri r = _uri A /\ rq_method r = _method A
      /\ prop "show" (rq_qs r) = VStr (_show A)
  | BulkCall _ _ => False
  end.

(** The cursors of [R] are those of [B] when nothing was requested since
    [h], and otherwise those of the page that answered the last
    request. *)
Definition cursors_of_last_page (net : network) (B : Listing)
    (h h' : store) (R : Listing) : Prop :=
  (log h' = log h /\ after R = after B /\ before R = before B)
  \/ (exists hist r w,
        log h' = hist ++ [PageCall r]
        /\ page_for net hist r = Some w
        /\ after R = w_after (_transform B w)
        /\ before R = w_before (_transform B w)).

(** What a chain of page requests resolves to. *)
Definition page_chain_result (net : network) (B : Listing) (n : num)
    (h h' : store) (R : Listing) : Prop :=
  page_listing R
  /\ same_source B R
  /\ (exists new,
        items R = items B ++ new
        /\ (is_finished h' R = true
            \/ num_le0 (num_sub n (length new)) = true))
  /\ cursors_of_last_page net B h h' R.

(** How a chain of page requests ends, and what it leaves in the log. *)
Definition page_chain_outcome (net : network) (fuel : nat) (B : Listing)
    (n : num) (h : store) (out : outcome loc) (h' : store) : Prop :=
  mores h' = mores h
  /\ exists evs,
       log h' = log h ++ evs
       /\ length evs <= fuel
       /\ Forall (to_source B) evs
       /\ match out with
          | Resolved r =>
              exists R, listings h' !! r = Some R
                        /\ page_chain_result net B n h h' R
          | Rejected e => e = TransportError /\ evs <> []
          | Thrown _ => False
          | OutOfFuel => length evs = fuel
          end.


(** The content objects of a page, in their order. *)
Definition wire_items (ws : list wire_elem) : list elem :=
  flat_map (fun w => match w with
                     | WItem name => [Item name]
                     | WMore _ => []
                     end) ws.

(** The properties that [_fetch_more_regular] sets itself in the query
    string, before [_query] fills in the rest. *)
Definition own_qs (this : Listing) (options : fetch_options) : jsobj :=
  [("after", after this); ("before", before this);
   ("limit", VNum (if _is_comment_list this
                   then num_succ (amount_of options)
                   else amount_of options));
   ("show", VStr (_show this))].


(** * ReplyableContent (objects/ReplyableContent.js) *)

Module ReplyableContent.

(** The argument of [_post]: [{uri, form}]. *)
Record post : Type := mkPost { uri : string; form : jsobj }.

(** The requester behind [this._post], a method that the class inherits
    from RedditContent: whether a post is fulfilled, given the posts
    made before. *)
Definition requester : Type := list post -> post -> bool.

(** A Comment, Submission or PrivateMessage: its fullname. *)
Record content : Type := mkContent { name : string }.

(** The methods, as functions from the log of posts to an outcome and
    the log. *)
Definition P (A : Type) : Type := list post -> outcome A * list post.

Definition then_ {A B} (m : P A) (k : A -> P B) : P B :=
  fun l =>
    match m l with
    | (Resolved a, l') => k a l'
    | (Rejected e, l') => (Rejected e, l')
    | (Thrown e, l') => (Thrown e, l')
    | (OutOfFuel, l') => (OutOfFuel, l')
    end.

(** [this._post({uri, form})]: one post, logged whether it is fulfilled
    or not. *)
Definition _post (ac : requester) (p : post) : P unit :=
  fun l =>
    if ac l p then (Resolved tt, l ++ [p])
    else (Rejected TransportError, l ++ [p]).

(** [promise.return(this)] *)
Definition return_ {A} (m : P unit) (this : A) : P A :=
  then_ m (fun _ l => (Resolved this, l)).

(** An optional object argument that is destructured with a default:
    left out (or [undefined]), [null], or an object whose property of
    interest has the given value. *)
Inductive argument : Type :=
| Missing
| Null
| Given (v : jsval).

Definition api_type : jsval := VStr "json".

(** [remove ({spam = false} = {})] *)
Definition remove (ac : requester) (this : content) (arg : argument)
    : P content :=
  match arg with
  | Null => fun l => (Thrown TypeError, l)
  | Missing | Given VUndefined =>
      return_ (_post ac {| uri := "api/remove";
                           form := [("spam", VBool false);
                                    ("id", VStr (name this))] |}) this
  | Given spam =>
      return_ (_post ac {| uri := "api/remove";
                           form := [("spam", spam);
                                    ("id", VStr (name this))] |}) this
  end.

(** [approve ()] *)
Definition approve (ac : requester) (this : content) : P content :=
  return_ (_post ac {| uri := "api/approve";
                       form := [("id", VStr (name this))] |}) this.

(** [report ({reason} = {})] *)
Definition report (ac : requester) (this : content) (arg : argument)
    : P content :=
  match arg with
  | Null => fun l => (Thrown TypeError, l)
  | Missing =>
      return_ (_post ac {| uri := "api/report";
                           form := [("api_type", api_type);
                                    ("reason", VStr "other");
                                    ("other_reason", VUndefined);
                                    ("thing_id", VStr (name this))] |}) this
  | Given reason =>
      return_ (_post ac {| uri := "api/report";
                           form := [("api_type", api_type);
                                    ("reason", VStr "other");
                                    ("other_reason", reason);
                                    ("thing_id", VStr (name this))] |}) this
  end.

(** [ignore_reports ()] *)
Definition ignore_reports (ac : requester) (this : content) : P content :=
  return_ (_post ac {| uri := "api/ignore_reports";
                       form := [("id", VStr (name this))] |}) this.

(** [unignore_reports ()] *)
Definition unignore_reports (ac : requester) (this : content) : P content :=
  return_ (_post ac {| uri := "api/unignore_reports";
                       form := [("id", VStr (name this))] |}) this.

(** [block_author ()] *)
Definition block_author (ac : requester) (this : content) : P content :=
  return_ (_post ac {| uri := "api/block";
                       form := [("id", VStr (name this))] |}) this.

(** A call of one of the actions, with its argument. *)
Inductive call : Type :=
| Remove (arg : argument)
| Approve
| Report (arg : argument)
| IgnoreReports
| UnignoreReports
| BlockAuthor.

Definition invoke (ac : requester) (c : call) (this : content) : P content :=
  match c with
  | Remove arg => remove ac this arg
  | Approve => approve ac this
  | Report arg => report ac this arg
  | IgnoreReports => ignore_reports ac this
  | UnignoreReports => unignore_reports ac this
  | BlockAuthor => block_author ac this
  end.

(** The argument of the call can be destructured: it is not [null]. *)
Definition destructurable (c : call) : Prop :=
  match c with
  | Remove Null | Report Null => False
  | _ => True
  end.

(** The fullname a post is about: [form.id], or [form.thing_id] for a
    report. *)
Definition target (p : post) : jsval :=
  match prop "id" (form p) with
  | VUndefined => prop "thing_id" (form p)
  | v => v
  end.

End ReplyableContent.

(** Every page that is delivered, once transformed, holds at least one
    element. *)
Definition no_empty_page (net : network) (T : wire_page -> wire_page) : Prop :=
  forall hist r w,
    page_for net hist r = Some w -> 0 < length (w_items (T w)).

(** A subreddit with three new posts, served up to the limit of each
    request, from the first on each time. *)
Definition three_new_posts : network := {|
  page_for := fun _ r =>
    match rq_limit r with
    | VNum (Fin z) =>
        if (0 <? z)%Z
        then Some (mkPage (take (Z.to_nat z) [WItem "p3"; WItem "p4"; WItem "p5"])
                     (VStr "p5") VNull)
        else None
    | _ => None
    end;
  bulk_for := fun _ _ _ => None
|}.

(** * Basic facts *)

Lemma prop_set_prop k k' v o :
  prop k (set_prop k' v o) = if String.eqb k k' then v else prop k o.
Proof.
  induction o as [|[k0 v0] o IH]; simpl.
  - reflexivity.
  - destruct (String.eqb k' k0) eqn:E0; simpl.
    + apply String.eqb_eq in E0. subst k0.
      destruct (String.eqb k k'); reflexivity.
    + destruct (String.eqb k k0) eqn:E1.
      * apply String.eqb_eq in E1. subst k0.
        destruct (String.eqb k k') eqn:E2; [|reflexivity].
        apply String.eqb_eq in E2. subst k'.
        rewrite String.eqb_refl in E0. discriminate.
      * apply IH.
Qed.

(** [_.defaults] leaves a property alone once it is defined. *)
Lemma prop_defaults k dst src :
  prop k dst <> VUndefined -> prop k (defaults dst src) = prop k dst.
Proof.
  unfold defaults. revert dst.
  induction src as [|[k' v'] src IH]; intros dst Hk; simpl.
  - reflexivity.
  - destruct (prop k' dst) eqn:E; rewrite IH; auto.
    + rewrite prop_set_prop. destruct (String.eqb k k') eqn:Ek; auto.
      apply String.eqb_eq in Ek. congruence.
    + rewrite prop_set_prop. destruct (String.eqb k k') eqn:Ek; auto.
      apply String.eqb_eq in Ek. congruence.
Qed.

Lemma ends_with_more_snoc xs e : ends_with_more (xs ++ [e]) = is_more e.
Proof. unfold ends_with_more. rewrite last_snoc. destruct e; reflexivity. Qed.

Lemma removelast_snoc {A} (xs : list A) x : removelast (xs ++ [x]) = xs.
Proof. apply List.removelast_last. Qed.

Lemma ends_with_more_inv xs :
  ends_with_more xs = true -> exists xs' l, xs = xs' ++ [MoreRef l].
Proof.
  unfold ends_with_more. destruct (last xs) as [[|l]|] eqn:E; try discriminate.
  intros _. apply last_Some in E. destruct E as [xs' ->]. eauto.
Qed.

(** What the constructor makes of the properties of a clone. *)
Lemma constructor_clone_clean A more :
  ends_with_more (items A) = false ->
  constructor (clone_properties A more) = with_more more A.
Proof.
  unfold constructor, ends_with_more. simpl.
  destruct A; simpl.
  destruct (last items0) as [[|l]|]; intros; try discriminate; reflexivity.
Qed.

Lemma constructor_clone_popped A more xs l :
  items A = xs ++ [MoreRef l] ->
  constructor (clone_properties A more) =
  with_is_comment_list true (with_more (Some l) (with_items xs A)).
Proof.
  intros E. unfold constructor. simpl. rewrite E, last_snoc.
  rewrite removelast_snoc. destruct A; reflexivity.
Qed.

Lemma items_constructor_clone A more :
  items (constructor (clone_properties A more)) =
  if ends_with_more (items A) then removelast (items A) else items A.
Proof.
  destruct (ends_with_more (items A)) eqn:E.
  - destruct (ends_with_more_inv _ E) as (xs & l & Hx).
    rewrite (constructor_clone_popped _ _ _ _ Hx), Hx, removelast_snoc.
    reflexivity.
  - rewrite constructor_clone_clean by assumption. reflexivity.
Qed.

(** * How the operations run *)

Lemma lookup_snoc_length {A} (xs : list A) x : (xs ++ [x]) !! length xs = Some x.
Proof. rewrite lookup_app_r by lia. rewrite Nat.sub_diag. reflexivity. Qed.

Lemma insert_snoc_length {A} (xs : list A) x y :
  <[length xs := y]> (xs ++ [x]) = xs ++ [y].
Proof. rewrite insert_app_r_alt by lia. rewrite Nat.sub_diag. reflexivity. Qed.

Lemma length_deliver base ws : length (deliver base ws).1 = length ws.
Proof.
  revert base. induction ws as [|[name|ids] ws IH]; intros base; simpl.
  - reflexivity.
  - specialize (IH base). destruct (deliver base ws). simpl in *. lia.
  - specialize (IH (S base)). destruct (deliver (S base) ws). simpl in *. lia.
Qed.

Lemma _clone_run h a A :
  listings h !! a = Some A ->
  _clone a h = (Resolved (length (listings h)), clone_store h A).
Proof.
  intros Ha. unfold _clone, bind, read_listing. rewrite Ha.
  unfold clone_store, clone_object, cloned_more, cloned_mores.
  destruct (_more A) as [l|]; simpl.
  - reflexivity.
  - rewrite app_nil_r. reflexivity.
Qed.

Lemma amount_parse_options options :
  amount (parse_options options) = arg_amount options.
Proof. destruct options; reflexivity. Qed.

(** One step of [fetch_more] on a Listing of the store, for a numeric
    amount. *)
Lemma fetch_more_eq net fuel a options h A n :
  arg_amount options = VNum n ->
  listings h !! a = Some A ->
  fetch_more net fuel a options h =
  if num_le0 n || is_finished h A
  then _clone a h
  else match _more A with
       | Some _ => _fetch_more_comments net a (parse_options options) h
       | None =>
           match fuel with
           | O => (OutOfFuel, h)
           | S fuel' =>
               _fetch_more_regular net (fetch_more net fuel')
                 a (parse_options options) h
           end
       end.
Proof.
  intros Hn Ha.
  destruct fuel; cbn [fetch_more]; rewrite amount_parse_options, Hn;
    unfold bind, read_listing; rewrite Ha; reflexivity.
Qed.

Lemma fetch_more_invalid net fuel a options h :
  isNumber (arg_amount options) = false ->
  fetch_more net fuel a options h =
  (Thrown (InvalidMethodCallError no_amount), h).
Proof.
  intros Hn.
  destruct fuel; cbn [fetch_more]; rewrite amount_parse_options;
    destruct (arg_amount options); try discriminate; reflexivity.
Qed.

Lemma fetch_more_missing net fuel a options h n :
  arg_amount options = VNum n ->
  listings h !! a = None ->
  fetch_more net fuel a options h = (Thrown TypeError, h).
Proof.
  intros Hn Ha.
  destruct fuel; cbn [fetch_more]; rewrite amount_parse_options, Hn;
    unfold bind, read_listing; rewrite Ha; reflexivity.
Qed.

(** The pending ids of the Listing's More are read the same after the
    clone was made. *)
Lemma children_after_clone h A l :
  _more A = Some l ->
  children (more_at (clone_store h A) l) = children (more_at h l).
Proof.
  intros HA. unfold more_at, clone_store, cloned_mores. simpl. rewrite HA.
  destruct (decide (l < length (mores h))) as [Hl|Hl].
  - by rewrite lookup_app_l.
  - rewrite lookup_app_r by lia.
    unfold more_at.
    rewrite (lookup_ge_None_2 (mores h) l) by lia.
    destruct (l - length (mores h)) as [|k]; reflexivity.
Qed.

Lemma more_clone_object_clean h A :
  ends_with_more (items A) = false ->
  clone_object h A = with_more (cloned_more h A) A.
Proof. apply constructor_clone_clean. Qed.

Lemma more_clone_object_is_Some h A l :
  _more A = Some l -> exists lc, _more (clone_object h A) = Some lc.
Proof.
  intros HA. unfold clone_object.
  destruct (ends_with_more (items A)) eqn:E.
  - destruct (ends_with_more_inv _ E) as (xs & lp & Hx).
    rewrite (constructor_clone_popped _ _ _ _ Hx). simpl. eauto.
  - rewrite constructor_clone_clean by assumption.
    unfold cloned_more. rewrite HA. simpl. eauto.
Qed.

Lemma _fetch_more_comments_run net h a A l lc options :
  listings h !! a = Some A ->
  _more A = Some l ->
  _more (clone_object h A) = Some lc ->
  _fetch_more_comments net a options h =
  let asked := take_amount (amount_of options) (children (more_at h l)) in
  match bulk_for net (log h) asked (skip_replies options) with
  | Some k =>
      (Resolved (length (listings h)),
       after_comments h A options asked (take k asked) lc)
  | None =>
      (Rejected TransportError,
       log_event (BulkCall asked (skip_replies options)) (clone_store h A))
  end.
Proof.
  intros Ha HA Hlc.
  assert (Ha1 : listings (clone_store h A) !! a = Some A).
  { simpl. rewrite lookup_app_l; [done|]. by eapply lookup_lt_Some. }
  unfold _fetch_more_comments, async, bind at 1.
  rewrite (_clone_run _ _ _ Ha).
  unfold bind at 1, read_listing at 1. rewrite Ha1, HA.
  unfold bind at 1, More_fetch_more.
  rewrite (children_after_clone _ _ _ HA).
  change (log (clone_store h A)) with (log h).
  cbv zeta.
  destruct (bulk_for net (log h) _ _) as [k|]; [|reflexivity].
  unfold bind, push, update_listing, read_listing, splice_children, ret.
  cbn [listings mores log log_event clone_store fst].
  rewrite lookup_snoc_length, insert_snoc_length.
  cbn [listings]. rewrite lookup_snoc_length.
  cbn [listings]. rewrite lookup_app_l by (by eapply lookup_lt_Some).
  rewrite Ha. cbn [_more with_items]. rewrite Hlc.
  reflexivity.
Qed.

Lemma _fetch_more_regular_run net rec h a A options :
  listings h !! a = Some A ->
  _more A = None ->
  _fetch_more_regular net rec a options h =
  match page_for net (log h) (page_request A options) with
  | None =>
      (Rejected TransportError,
       log_event (PageCall (page_request A options)) h)
  | Some w =>
      async (rec (length (listings h))
               (residual_options options (_transform A w)))
        (regular_store h A options (_transform A w))
  end.
Proof.
  intros Ha HA.
  unfold _fetch_more_regular, async at 1, bind at 1, read_listing at 1.
  rewrite Ha. unfold bind at 1, call.
  destruct (page_for net (log h) (page_request A options)) as [w|];
    [|reflexivity].
  unfold residual_options, regular_store.
  pose proof (length_deliver (length (mores h)) (w_items (_transform A w)))
    as Hlen.
  destruct (deliver (length (mores h)) (w_items (_transform A w)))
    as [es ms] eqn:Ed.
  cbn [fst snd] in *. rewrite <- Hlen.
  unfold bind at 1.
  set (h1 := {| listings := listings h; mores := mores h ++ ms;
                log := log h ++ [PageCall (page_request A options)] |}).
  rewrite (_clone_run h1 a A Ha).
  unfold clone_store, clone_object, cloned_more, cloned_mores.
  rewrite HA. subst h1. cbn [listings mores log r_items r_after r_before].
  unfold bind, push, update_listing.
  cbn [listings mores log].
  rewrite app_nil_r.
  rewrite lookup_snoc_length, insert_snoc_length. cbn [listings mores log].
  rewrite lookup_snoc_length, insert_snoc_length. cbn [listings mores log].
  rewrite lookup_snoc_length, insert_snoc_length. cbn [listings mores log].
  reflexivity.
Qed.

(** * is_finished *)

Lemma is_null_true v : is_null v = true <-> v = VNull.
Proof. destruct v; simpl; split; congruence. Qed.

Lemma no_children_length {A} (xs : list A) :
  negb (0 <? length xs) = true <-> xs = [].
Proof. destruct xs; simpl; split; congruence. Qed.

(** C1, as stated, fails: a comment Listing whose More still has pending
    ids is not finished, although it has no uri and both of its cursors
    are [null]. *)
Lemma is_finished_as_specified_fails :
  ~ (is_finished comments_store (constructor comments_options) = true
     <-> finished_as_specified comments_store (constructor comments_options)).
Proof.
  intros [_ H].
  assert (Hf : is_finished comments_store (constructor comments_options)
               = false) by reflexivity.
  rewrite H in Hf; [discriminate|].
  right. left. reflexivity.
Qed.

(** C1, amended: [is_finished] holds if and only if the More node exists
    and its [children] is empty, or there is no More node and either the
    uri is absent (falsy) or both cursors are strictly [null]. *)
Theorem is_finished_iff (h : store) (L : Listing) :
  is_finished h L = true <->
  (exists l, _more L = Some l /\ children (more_at h l) = [])
  \/ (_more L = None
      /\ (truthy (_uri L) = false
          \/ (after L = VNull /\ before L = VNull))).
Proof.
  unfold is_finished. destruct (_more L) as [l|].
  - rewrite no_children_length. split.
    + intros H. left. eauto.
    + intros [(l' & [= <-] & H)|[[=] _]]. exact H.
  - rewrite orb_true_iff, andb_true_iff, negb_true_iff, !is_null_true. split.
    + intros H. right. split; [reflexivity|exact H].
    + intros [(l' & [=] & _)|[_ H]]. exact H.
Qed.

(** C10: on a Listing without a More node whose uri is present,
    [is_finished] is false while either cursor is [undefined], and it is
    true exactly when both cursors are [null]; so a Listing just built
    from options with a uri and no cursors is not finished. *)
Theorem is_finished_unset_cursor (h : store) (L : Listing)
    (Hmore : _more L = None) (Huri : truthy (_uri L) = true) :
  ((after L = VUndefined \/ before L = VUndefined) ->
   is_finished h L = false)
  /\ (is_finished h L = true <-> after L = VNull /\ before L = VNull)
  /\ (forall options,
        L = constructor options ->
        o_after options = VUndefined ->
        o_before options = VUndefined ->
        is_finished h L = false).
Proof.
  assert (Hiff : is_finished h L = true
                 <-> after L = VNull /\ before L = VNull).
  { unfold is_finished. rewrite Hmore, Huri. simpl.
    rewrite andb_true_iff, !is_null_true. reflexivity. }
  assert (Hundef : (after L = VUndefined \/ before L = VUndefined) ->
                   is_finished h L = false).
  { intros Hu. apply not_true_is_false. rewrite Hiff.
    intros [Ha Hb]. destruct Hu; congruence. }
  split; [exact Hundef|]. split; [exact Hiff|].
  intros options -> Ha Hb. apply Hundef. left.
  unfold constructor.
  destruct (last (default [] (o_children options))) as [[|l]|]; exact Ha.
Qed.

Lemma is_finished_unset_cursor_witness :
  is_finished comments_store (constructor unfetched_options) = false.
Proof.
  refine (proj1 (is_finished_unset_cursor comments_store
                   (constructor unfetched_options) _ _) _).
  - vm_compute; reflexivity.
  - vm_compute; reflexivity.
  - left. vm_compute; reflexivity.
Defined.

(** * The constructor *)

(** C9, as stated, fails in its last part: the constructor pops one
    trailing placeholder only, so a second one stays among the
    elements. *)
Lemma constructor_keeps_second_placeholder :
  o_children two_placeholders = Some ([Item "t1_c1"; MoreRef 0] ++ [MoreRef 1])
  /\ items (constructor two_placeholders) = [Item "t1_c1"; MoreRef 0]
  /\ no_more (items (constructor two_placeholders)) = false.
Proof. repeat split. Qed.

(** C9, amended: when the last of the children is a placeholder, the
    constructor removes it from the elements, stores it as the More node
    and sets the comment-list flag; the elements then hold no placeholder
    provided that no other child is one. *)
Theorem constructor_pops_placeholder (options : ListingOptions)
    (xs : list elem) (l : loc)
    (Hchildren : o_children options = Some (xs ++ [MoreRef l])) :
  items (constructor options) = xs
  /\ _more (constructor options) = Some l
  /\ _is_comment_list (constructor options) = true
  /\ (no_more xs = true -> no_more (items (constructor options)) = true).
Proof.
  unfold constructor. rewrite Hchildren. simpl.
  rewrite last_snoc. simpl. rewrite removelast_snoc.
  repeat split; auto.
Qed.

Lemma constructor_pops_placeholder_witness :
  items (constructor comments_options) = [Item "t1_c1"]
  /\ _more (constructor comments_options) = Some 0
  /\ _is_comment_list (constructor comments_options) = true
  /\ (no_more [Item "t1_c1"] = true ->
      no_more (items (constructor comments_options)) = true).
Proof.
  apply (constructor_pops_placeholder comments_options [Item "t1_c1"] 0).
  vm_compute; reflexivity.
Defined.

(** * Invalid arguments *)

(** C8: [fetch_more] with a missing or non-numeric amount, and
    [fetch_until] with a missing or non-numeric length, throw
    [InvalidMethodCallError] from the call itself, and the store, with
    its log of network calls, is as it was. *)
Theorem invalid_argument_is_thrown (net : network) (fuel : nat)
    (this : loc) (h : store) :
  (forall options,
     isNumber (arg_amount options) = false ->
     fetch_more net fuel this options h =
     (Thrown (InvalidMethodCallError no_amount), h))
  /\ (forall options,
        isNumber (length_ options) = false ->
        fetch_until net fuel this options h =
        (Thrown (InvalidMethodCallError no_amount), h)).
Proof.
  split.
  - intros options Hn. by apply fetch_more_invalid.
  - intros options Hn. unfold fetch_until.
    destruct (length_ options); try discriminate; reflexivity.
Qed.

Lemma invalid_argument_is_thrown_witness :
  fetch_more offline
    0 0 (ArgValue (VStr "ten")) comments_store
  = (Thrown (InvalidMethodCallError no_amount), comments_store).
Proof.
  apply (proj1 (invalid_argument_is_thrown _ 0 0 comments_store)).
  vm_compute; reflexivity.
Defined.

(** * Calls that fetch nothing *)





(** * fetch_until *)

Lemma page_request_same A o1 o2 :
  amount o1 = amount o2 -> page_request A o1 = page_request A o2.
Proof. intros H. unfold page_request, amount_of. rewrite H. reflexivity. Qed.

Lemma _fetch_more_comments_same net a o1 o2 h :
  amount o1 = amount o2 ->
  skip_replies o1 = skip_replies o2 ->
  _fetch_more_comments net a o1 h = _fetch_more_comments net a o2 h.
Proof.
  intros Ham Hsk.
  unfold _fetch_more_comments, async, bind.
  destruct (_clone a h) as [[c| | |] h1]; try reflexivity.
  destruct (read_listing a h1) as [[L| | |] h2]; try reflexivity.
  destruct (_more L) as [l|]; [|reflexivity].
  unfold More_fetch_more, amount_of. rewrite Ham, Hsk. reflexivity.
Qed.

Lemma same_fetch_residual o1 o2 v :
  skip_replies o1 = skip_replies o2 ->
  same_fetch (ArgObject (with_amount v o1)) (ArgObject (with_amount v o2)).
Proof.
  intros H. split; unfold parse_options; simpl; [reflexivity|].
  rewrite H. reflexivity.
Qed.

(** [fetch_more] reads nothing of its argument but the amount and
    [skip_replies]. *)
Lemma fetch_more_same_fetch net fuel :
  forall a o1 o2 h,
    same_fetch o1 o2 ->
    fetch_more net fuel a o1 h = fetch_more net fuel a o2 h.
Proof.
  induction fuel as [|fuel IH]; intros a o1 o2 h [Ham Hsk];
    cbn [fetch_more]; rewrite <- Ham;
    (destruct (amount (parse_options o1)) as [| | |n|] eqn:En;
     [reflexivity..| |reflexivity]);
    unfold bind; destruct (read_listing a h) as [[L| | |] h1];
    try reflexivity;
    (destruct (num_le0 n || is_finished h1 L); [reflexivity|]);
    (destruct (_more L) as [l|];
     [apply _fetch_more_comments_same; congruence|]).
  - reflexivity.
  - unfold _fetch_more_regular, async, bind.
    destruct (read_listing a h1) as [[L'| | |] h2]; try reflexivity.
    rewrite (page_request_same L' _ (parse_options o2)) by congruence.
    destruct (call net _ _ h2) as [[resp| | |] h3]; try reflexivity.
    destruct (_clone a h3) as [[c| | |] h4]; try reflexivity.
    destruct (push c _ h4) as [[[]| | |] h5]; try reflexivity.
    destruct (update_listing c _ h5) as [[[]| | |] h6]; try reflexivity.
    destruct (update_listing c _ h6) as [[[]| | |] h7]; try reflexivity.
    replace (amount_of (parse_options o1))
      with (amount_of (parse_options o2))
      by (unfold amount_of; rewrite En, <- Ham; reflexivity).
    rewrite (IH c _ _ h7 (same_fetch_residual _ _ _ Hsk)). reflexivity.
Qed.



(** * Comment pagination *)

Lemma amount_of_parse_options options n :
  arg_amount options = VNum n -> amount_of (parse_options options) = n.
Proof.
  intros H. unfold amount_of. rewrite amount_parse_options, H. reflexivity.
Qed.

Lemma async_resolved {A} (m : M A) h r h' :
  async m h = (Resolved r, h') -> m h = (Resolved r, h').
Proof.
  unfold async. destruct (m h) as [[x| | |] h1]; intros [= <- <-] || intros [=].
  reflexivity.
Qed.

Lemma more_at_snoc ls ms m lg :
  more_at {| listings := ls; mores := ms ++ [m]; log := lg |} (length ms) = m.
Proof. unfold more_at. simpl. rewrite lookup_snoc_length. reflexivity. Qed.

(** On a Listing whose last element is not a placeholder, the clone's
    More is the new copy, and the splice works on that copy. *)
Lemma after_comments_clean h A l options asked ids :
  _more A = Some l ->
  ends_with_more (items A) = false ->
  after_comments h A options asked ids (length (mores h)) =
  {| listings :=
       listings h ++
       [with_items (items A ++ (Item <$> ids))
          (with_more (Some (length (mores h))) A)];
     mores := mores h ++ [mkMore (drop (length ids) (children (more_at h l)))];
     log := log h ++ [BulkCall asked (skip_replies options)] |}.
Proof.
  intros HA Hclean. unfold after_comments.
  rewrite more_clone_object_clean by assumption.
  unfold cloned_more, cloned_mores. rewrite HA. simpl.
  rewrite lookup_snoc_length, insert_snoc_length. simpl.
  rewrite length_app, length_fmap.
  replace (Z.to_nat (Z.of_nat (length (items A) + length ids)
                     - Z.of_nat (length (items A)))) with (length ids) by lia.
  reflexivity.
Qed.






(** * The original is left as it was *)














(** * Growth *)

(** Cloning keeps [xs] in front when [xs] does not end in a
    placeholder. *)
Lemma clone_items_extend xs ys B more :
  ends_with_more xs = false ->
  items B = xs ++ ys ->
  exists ys', items (constructor (clone_properties B more)) = xs ++ ys'.
Proof.
  intros Hxs HB. rewrite items_constructor_clone, HB.
  destruct ys as [|y ys _] using rev_ind.
  - rewrite app_nil_r, Hxs. exists []. by rewrite app_nil_r.
  - rewrite app_assoc, ends_with_more_snoc.
    destruct (is_more y).
    + rewrite removelast_snoc. eauto.
    + rewrite <- app_assoc. eauto.
Qed.

(** The elements a Listing starts with, up to a last element that is not
    a placeholder, are the first elements of whatever [fetch_more]
    resolves to. *)
Lemma fetch_more_extends net xs (Hxs : ends_with_more xs = false) fuel :
  forall b options h r h' B ys,
    listings h !! b = Some B ->
    items B = xs ++ ys ->
    fetch_more net fuel b options h = (Resolved r, h') ->
    exists R new, listings h' !! r = Some R /\ items R = xs ++ new.
Proof.
  induction fuel as [|fuel IH]; intros b options h r h' B ys Hb HB Hrun.
  all: destruct (arg_amount options) as [| | |n|] eqn:Hn;
    try (rewrite fetch_more_invalid in Hrun by (rewrite Hn; reflexivity);
         discriminate).
  all: rewrite (fetch_more_eq _ _ _ _ _ _ _ Hn Hb) in Hrun.
  all: destruct (num_le0 n || is_finished h B);
    [rewrite (_clone_run _ _ _ Hb) in Hrun; injection Hrun as <- <-;
     destruct (clone_items_extend xs ys B (cloned_more h B) Hxs HB)
       as [ys' Hys'];
     exists (clone_object h B), ys'; split;
     [apply lookup_snoc_length|exact Hys']|].
  all: destruct (_more B) as [l|] eqn:Hl.
  all: try (destruct (more_clone_object_is_Some h B l Hl) as [lc Hlc];
    rewrite (_fetch_more_comments_run _ _ _ _ _ _ _ Hb Hl Hlc) in Hrun;
    cbv zeta in Hrun;
    destruct (bulk_for net (log h) _ _) as [k|]; [|discriminate];
    injection Hrun as <- <-;
    destruct (clone_items_extend xs ys B (cloned_more h B) Hxs HB)
      as [ys' Hys'];
    eexists _, _; cbn [after_comments listings];
    split; [apply lookup_snoc_length|];
    cbn [items with_items]; fold (clone_object h B);
    unfold clone_object; rewrite Hys', <- app_assoc; reflexivity).
  - discriminate.
  - rewrite (_fetch_more_regular_run _ _ _ _ _ _ Hb Hl) in Hrun.
    destruct (page_for net (log h) _) as [w|]; [|discriminate].
    apply async_resolved in Hrun.
    destruct (clone_items_extend xs ys B None Hxs HB) as [ys' Hys'].
    eapply IH; [| |exact Hrun].
    + unfold regular_store. cbn [listings]. apply lookup_snoc_length.
    + simpl. rewrite Hys', <- app_assoc. reflexivity.
Qed.




(** * How many items are fetched *)

Lemma length_clone_items B more :
  length (items (constructor (clone_properties B more))) <= length (items B).
Proof.
  rewrite items_constructor_clone.
  destruct (ends_with_more (items B)) eqn:E; [|lia].
  destruct (ends_with_more_inv _ E) as (xs & l & ->).
  rewrite removelast_snoc, length_app. simpl. lia.
Qed.

Lemma transform_clone B more :
  _transform (constructor (clone_properties B more)) = _transform B.
Proof.
  unfold constructor. simpl.
  destruct (last (items B)) as [[|l]|]; reflexivity.
Qed.

(** A clone has a More node, or the comment-list flag of its original. *)
Lemma flag_clone B more :
  _more B <> None \/ _is_comment_list B = false ->
  (more = None -> _more B = None) ->
  _more (constructor (clone_properties B more)) <> None
  \/ _is_comment_list (constructor (clone_properties B more)) = false.
Proof.
  intros HB Hmore. unfold constructor. simpl.
  destruct (last (items B)) as [[|l]|]; simpl; try (by left).
  all: destruct more; [by left|].
  all: destruct HB as [HB|HB]; [|by right].
  all: exfalso; apply HB, Hmore; reflexivity.
Qed.

Lemma rq_limit_page_request B options :
  rq_limit (page_request B options)
  = VNum (if _is_comment_list B then num_succ (amount_of options)
          else amount_of options).
Proof.
  unfold rq_limit, page_request. cbn [rq_qs].
  rewrite prop_defaults; reflexivity || discriminate.
Qed.

Lemma length_take_amount n (ids : list string) :
  growth_ok 0 (length (take_amount n ids)) n.
Proof.
  destruct n; simpl; auto.
  rewrite length_take. lia.
Qed.

(** The comment path appends no more items than the amount. *)
Lemma _fetch_more_comments_bounded net b options h r h' B l n :
  listings h !! b = Some B ->
  _more B = Some l ->
  arg_amount options = VNum n ->
  _fetch_more_comments net b (parse_options options) h = (Resolved r, h') ->
  exists R,
    listings h' !! r = Some R
    /\ growth_ok (length (items B)) (length (items R)) n.
Proof.
  intros Hb Hl Hn Hrun.
  destruct (more_clone_object_is_Some h B l Hl) as [lc Hlc].
  rewrite (_fetch_more_comments_run _ _ _ _ _ _ _ Hb Hl Hlc) in Hrun.
  cbv zeta in Hrun.
  destruct (bulk_for net (log h) _ _) as [k|]; [|discriminate].
  injection Hrun as <- <-.
  eexists. cbn [after_comments listings].
  split; [apply lookup_snoc_length|].
  cbn [items with_items]. rewrite length_app, length_fmap, length_take.
  pose proof (length_clone_items B (cloned_more h B)) as Hlen.
  fold (clone_object h B) in Hlen.
  rewrite (amount_of_parse_options _ _ Hn).
  pose proof (length_take_amount n (children (more_at h l))) as Htake.
  destruct n; unfold growth_ok in *; try exact I; lia.
Qed.

(** With a requester that honours the limit, [fetch_more] appends at most
    [amount] elements, on a Listing that has a More node or is not
    flagged as a comment list. *)
Lemma fetch_more_bounded net T (Hlim : honours_limit net T) fuel :
  forall b options h r h' B n,
    listings h !! b = Some B ->
    _transform B = T ->
    _more B <> None \/ _is_comment_list B = false ->
    arg_amount options = VNum n ->
    fetch_more net fuel b options h = (Resolved r, h') ->
    exists R,
      listings h' !! r = Some R
      /\ growth_ok (length (items B)) (length (items R)) n.
Proof.
  induction fuel as [|fuel IH]; intros b options h r h' B n Hb HT HP Hn Hrun.
  all: rewrite (fetch_more_eq _ _ _ _ _ _ _ Hn Hb) in Hrun.
  all: destruct (num_le0 n || is_finished h B) eqn:Hshort;
    [rewrite (_clone_run _ _ _ Hb) in Hrun; injection Hrun as <- <-;
     exists (clone_object h B); split; [apply lookup_snoc_length|];
     pose proof (length_clone_items B (cloned_more h B)) as Hlen;
     fold (clone_object h B) in Hlen;
     destruct n; simpl; auto; lia|].
  all: apply orb_false_iff in Hshort as [Hpos _].
  all: destruct (_more B) as [l|] eqn:Hl.
  all: try (eapply _fetch_more_comments_bounded; eassumption).
  - discriminate.
  - destruct HP as [HP|HP]; [congruence|].
    rewrite (_fetch_more_regular_run _ _ _ _ _ _ Hb Hl) in Hrun.
    destruct (page_for net (log h) _) as [w|] eqn:Hw; [|discriminate].
    apply async_resolved in Hrun.
    pose proof (Hlim _ _ _ _ Hw (rq_limit_page_request _ _)) as Hpage.
    rewrite HP, (amount_of_parse_options _ _ Hn) in Hpage.
    rewrite HT in Hrun.
    set (page := T w) in *.
    set (C0 := constructor (clone_properties B None)).
    set (C := with_after (w_after page)
                (with_before (w_before page)
                   (with_items
                      (items C0 ++ (deliver (length (mores h)) (w_items page)).1)
                      C0))).
    assert (HC : listings (regular_store h B (parse_options options) page)
                 !! length (listings h) = Some C)
      by apply lookup_snoc_length.
    assert (HTC : _transform C = T)
      by (subst C C0; simpl; rewrite transform_clone; exact HT).
    assert (HPC : _more C <> None \/ _is_comment_list C = false)
      by (subst C C0; simpl; apply flag_clone; [by right|auto]).
    assert (HnC : arg_amount (residual_options (parse_options options) page)
                  = VNum (num_sub n (length (w_items page)))).
    { unfold residual_options. cbn [arg_amount with_amount amount].
      rewrite (amount_of_parse_options _ _ Hn). reflexivity. }
    destruct (IH _ _ _ _ _ C _ HC HTC HPC HnC Hrun) as (R & HR & Hgrow).
    exists R. split; [exact HR|].
    pose proof (length_clone_items B None) as Hlen. fold C0 in Hlen.
    subst C. cbn [items with_after with_before with_items] in Hgrow.
    rewrite length_app, length_deliver in Hgrow.
    destruct n as [z| | |]; try discriminate; try exact I.
    simpl in Hpos. apply Z.leb_gt in Hpos.
    assert (Hz : num_pos (Fin z) = true) by (apply Z.ltb_lt; exact Hpos).
    specialize (Hpage Hz). simpl in *. lia.
Qed.

Lemma deliver_plain base ws :
  forallb is_witem ws = true -> Forall not_more (deliver base ws).1.
Proof.
  revert base. induction ws as [|[name|ids] ws IH]; intros base; simpl.
  - constructor.
  - intros H. specialize (IH base H). destruct (deliver base ws). simpl in *.
    constructor; [reflexivity|exact IH].
  - discriminate.
Qed.

Lemma ends_with_more_plain xs es :
  ends_with_more xs = false -> Forall not_more es ->
  ends_with_more (xs ++ es) = false.
Proof.
  intros Hxs Hes. destruct es as [|e es _] using rev_ind.
  - by rewrite app_nil_r.
  - rewrite app_assoc, ends_with_more_snoc.
    apply Forall_app in Hes as [_ He]. by inversion He.
Qed.

Lemma is_finished_clone h B :
  ends_with_more (items B) = false ->
  is_finished (clone_store h B) (clone_object h B) = is_finished h B.
Proof.
  intros Hclean. rewrite more_clone_object_clean by assumption.
  unfold is_finished, clone_store, cloned_more, cloned_mores.
  destruct (_more B) as [l|]; simpl; [|reflexivity].
  rewrite more_at_snoc. reflexivity.
Qed.

(** The comment path stops short of the amount only when no pending id
    is left, if the bulk endpoint resolves all it is asked for. *)
Lemma _fetch_more_comments_exhausts net (Hbulk : complete_bulk net)
    b options h r h' B l n :
  listings h !! b = Some B ->
  _more B = Some l ->
  ends_with_more (items B) = false ->
  arg_amount options = VNum n ->
  n = PosInf \/ (exists z, n = Fin z) ->
  num_le0 n = false ->
  _fetch_more_comments net b (parse_options options) h = (Resolved r, h') ->
  exists R,
    listings h' !! r = Some R
    /\ (is_finished h' R = true
        \/ reached (length (items B)) (length (items R)) n).
Proof.
  intros Hb Hl Hclean Hn Hnum Hpos Hrun.
  rewrite (_fetch_more_comments_run net h b B l (length (mores h))) in Hrun;
    [|assumption..
     |rewrite more_clone_object_clean by assumption;
      unfold cloned_more; rewrite Hl; reflexivity].
  cbv zeta in Hrun.
  destruct (bulk_for net (log h) _ _) as [k|] eqn:Hk; [|discriminate].
  apply Hbulk in Hk.
  injection Hrun as <- <-.
  rewrite (after_comments_clean _ _ l) by assumption.
  rewrite take_ge by exact Hk.
  rewrite (amount_of_parse_options _ _ Hn).
  eexists. split; [apply lookup_snoc_length|].
  unfold is_finished. cbn [_more with_items with_more items].
  rewrite more_at_snoc. cbn [children].
  rewrite length_app, length_fmap, length_drop.
  destruct Hnum as [->|[z ->]]; cbn [take_amount reached].
  - left. rewrite Nat.sub_diag. reflexivity.
  - simpl in Hpos. apply Z.leb_gt in Hpos.
    rewrite length_take.
    destruct (decide (Z.to_nat z <= length (children (more_at h l)))).
    + right. lia.
    + left.
      replace (length (children (more_at h l))
               - Z.to_nat z `min` length (children (more_at h l))) with 0
        by lia.
      reflexivity.
Qed.

(** With pages that carry no placeholder and a bulk endpoint that
    resolves all it is asked for, [fetch_more] stops short of the amount
    only on a finished Listing. *)
Lemma fetch_more_exhausts net T (Hplain : plain_pages net T)
    (Hbulk : complete_bulk net) fuel :
  forall b options h r h' B n,
    listings h !! b = Some B ->
    _transform B = T ->
    ends_with_more (items B) = false ->
    arg_amount options = VNum n ->
    n = PosInf \/ (exists z, n = Fin z) ->
    fetch_more net fuel b options h = (Resolved r, h') ->
    exists R,
      listings h' !! r = Some R
      /\ (is_finished h' R = true
          \/ reached (length (items B)) (length (items R)) n).
Proof.
  induction fuel as [|fuel IH];
    intros b options h r h' B n Hb HT Hclean Hn Hnum Hrun.
  all: rewrite (fetch_more_eq _ _ _ _ _ _ _ Hn Hb) in Hrun.
  all: destruct (num_le0 n || is_finished h B) eqn:Hshort;
    [rewrite (_clone_run _ _ _ Hb) in Hrun; injection Hrun as <- <-;
     exists (clone_object h B); split; [apply lookup_snoc_length|];
     rewrite (is_finished_clone _ _ Hclean);
     destruct (is_finished h B); [by left|right];
     rewrite orb_false_r in Hshort;
     rewrite more_clone_object_clean by assumption;
     destruct Hnum as [->|[z ->]]; [discriminate|];
     simpl in *; apply Z.leb_le in Hshort; lia|].
  all: apply orb_false_iff in Hshort as [Hpos Hfin].
  all: destruct (_more B) as [l|] eqn:Hl.
  all: try (eapply _fetch_more_comments_exhausts; eassumption).
  - discriminate.
  - rewrite (_fetch_more_regular_run _ _ _ _ _ _ Hb Hl) in Hrun.
    destruct (page_for net (log h) _) as [w|] eqn:Hw; [|discriminate].
    apply async_resolved in Hrun.
    pose proof (Hplain _ _ _ Hw) as Hpage.
    rewrite HT in Hrun. set (page := T w) in *.
    set (C0 := constructor (clone_properties B None)).
    set (C := with_after (w_after page)
                (with_before (w_before page)
                   (with_items
                      (items C0 ++ (deliver (length (mores h)) (w_items page)).1)
                      C0))).
    assert (HC0 : C0 = with_more None B)
      by (apply constructor_clone_clean; assumption).
    assert (HC : listings (regular_store h B (parse_options options) page)
                 !! length (listings h) = Some C)
      by apply lookup_snoc_length.
    assert (HTC : _transform C = T)
      by (subst C; rewrite HC0; simpl; exact HT).
    assert (HcleanC : ends_with_more (items C) = false).
    { subst C. rewrite HC0. simpl.
      apply ends_with_more_plain; [assumption|by apply deliver_plain]. }
    assert (HnC : arg_amount (residual_options (parse_options options) page)
                  = VNum (num_sub n (length (w_items page)))).
    { unfold residual_options. cbn [arg_amount with_amount amount].
      rewrite (amount_of_parse_options _ _ Hn). reflexivity. }
    assert (HnumC : num_sub n (length (w_items page)) = PosInf
                    \/ exists z, num_sub n (length (w_items page)) = Fin z).
    { destruct Hnum as [->|[z ->]]; simpl; eauto. }
    destruct (IH _ _ _ _ _ C _ HC HTC HcleanC HnC HnumC Hrun)
      as (R & HR & Hend).
    exists R. split; [exact HR|].
    destruct Hend as [Hend|Hend]; [by left|right].
    subst C. rewrite HC0 in Hend. simpl in Hend.
    rewrite length_app, length_deliver in Hend.
    destruct Hnum as [->|[z ->]]; simpl in *; [contradiction|lia].
Qed.

(** C2, as stated, fails. Nothing truncates a page: a source that answers
    a request for two posts with three has all three appended. And on a
    Listing flagged as a comment list that has no More node the request
    asks for one item more than the amount, so a source that keeps to the
    limit can deliver two replies when one was asked for. *)
Lemma fetch_more_appends_whole_page :
  let result :=
    fetch_more three_posts 1 0 (ArgValue (VNum (Fin 2))) posts_store in
  let replies :=
    fetch_more three_replies 1 0 (ArgValue (VNum (Fin 1))) replies_store in
  (result.1 = Resolved 2
   /\ rq_limit <$> (match log result.2 with
                    | [PageCall r] => Some r
                    | _ => None
                    end) = Some (VNum (Fin 2))
   /\ items <$> listings posts_store !! 0 = Some [Item "p1"; Item "p2"]
   /\ items <$> listings result.2 !! 2
      = Some ([Item "p1"; Item "p2"] ++ [Item "p3"; Item "p4"; Item "p5"])
   /\ ~ count_le (length [Item "p3"; Item "p4"; Item "p5"]) (Fin 2))
  /\ (replies.1 = Resolved 2
      /\ rq_limit <$> (match log replies.2 with
                       | [PageCall r] => Some r
                       | _ => None
                       end) = Some (VNum (Fin 2))
      /\ items <$> listings replies_store !! 0 = Some []
      /\ items <$> listings replies.2 !! 2 = Some [Item "c1"; Item "c2"]
      /\ ~ count_le (length [Item "c1"; Item "c2"]) (Fin 1)).
Proof. repeat split; simpl; lia. Qed.

(** C2, amended: for a Listing whose last element is not a placeholder
    and which has a More node or is not flagged as a comment list, a
    numeric amount [> 0], and a requester whose pages are no longer than
    the limit asked for, the Listing that [fetch_more] resolves to holds
    the elements of the original followed by newly fetched ones, at most
    [amount] of them; and when no page carries a placeholder and the bulk
    endpoint resolves all it is asked for, fewer than [amount] only if
    the result is finished. *)
Theorem fetch_more_appends (net : network) (fuel : nat) (h h' : store)
    (a r : loc) (A : Listing) (options : fetch_arg) (n : num)
    (Ha : listings h !! a = Some A)
    (Hclean : ends_with_more (items A) = false)
    (Hflag : _more A <> None \/ _is_comment_list A = false)
    (Hn : arg_amount options = VNum n)
    (Hpos : num_pos n = true)
    (Hlim : honours_limit net (_transform A))
    (Hrun : fetch_more net fuel a options h = (Resolved r, h')) :
  exists R new,
    listings h' !! r = Some R
    /\ items R = items A ++ new
    /\ count_le (length new) n
    /\ (plain_pages net (_transform A) ->
        complete_bulk net ->
        count_lt (length new) n ->
        is_finished h' R = true).
Proof.
  destruct (fetch_more_extends net (items A) Hclean fuel a options h r h' A []
              Ha (eq_sym (app_nil_r _)) Hrun) as (R & new & HR & Hnew).
  exists R, new. split; [exact HR|]. split; [exact Hnew|]. split.
  - destruct (fetch_more_bounded net _ Hlim fuel a options h r h' A n
                Ha eq_refl Hflag Hn Hrun) as (R' & HR' & Hgrow).
    rewrite HR in HR'. injection HR' as <-.
    rewrite Hnew, length_app in Hgrow.
    destruct n; try discriminate; [|exact I].
    unfold growth_ok, count_le, num_pos in *.
    apply Z.ltb_lt in Hpos.
    rewrite Z.max_r, Nat2Z.inj_add in Hgrow by lia. lia.
  - intros Hplain Hbulk Hfew.
    assert (Hnum : n = PosInf \/ exists z, n = Fin z)
      by (destruct n; try discriminate; eauto).
    destruct (fetch_more_exhausts net _ Hplain Hbulk fuel a options h r h' A n
                Ha eq_refl Hclean Hn Hnum Hrun) as (R' & HR' & Hend).
    rewrite HR in HR'. injection HR' as <-.
    destruct Hend as [Hend|Hend]; [exact Hend|].
    rewrite Hnew, length_app in Hend.
    destruct n; try contradiction.
    unfold reached, count_lt in *.
    rewrite Nat2Z.inj_add in Hend. lia.
Qed.

Lemma last_page_honours_limit : honours_limit last_page (fun w => w).
Proof.
  intros hist r w lim Hw Hr Hpos. unfold last_page in Hw.
  cbn [page_for] in Hw. rewrite Hr in Hw.
  destruct lim as [z| | |]; try discriminate; [|exact I].
  simpl in Hpos. apply Z.ltb_lt in Hpos.
  destruct hist; injection Hw as <-; simpl; [|lia].
  rewrite length_take. simpl. lia.
Qed.

Lemma fetch_more_appends_witness :
  let result := fetch_more last_page 2 0 (ArgValue (VNum (Fin 5))) posts_store in
  exists R new,
    listings result.2 !! 2 = Some R
    /\ items R = [Item "p1"; Item "p2"] ++ new
    /\ count_le (length new) (Fin 5)
    /\ (plain_pages last_page (fun w => w) ->
        complete_bulk last_page ->
        count_lt (length new) (Fin 5) ->
        is_finished result.2 R = true).
Proof.
  apply (fetch_more_appends last_page 2 posts_store _ 0 2
           (constructor posts_options) (ArgValue (VNum (Fin 5))) (Fin 5)).
  - vm_compute; reflexivity.
  - vm_compute; reflexivity.
  - right. vm_compute; reflexivity.
  - vm_compute; reflexivity.
  - vm_compute; reflexivity.
  - exact last_page_honours_limit.
  - vm_compute; reflexivity.
Defined.

(** The example of the specification: [fetch_more(2)] on the two posts,
    against the source that returns the last two with [null] cursors,
    gives the four posts and a finished Listing, with one request. *)
Example posts_fetch_more_2 :
  let result := fetch_more last_page 2 0 (ArgValue (VNum (Fin 2))) posts_store in
  result.1 = Resolved 2
  /\ items <$> listings result.2 !! 2
     = Some [Item "p1"; Item "p2"; Item "p3"; Item "p4"]
  /\ is_finished result.2 <$> listings result.2 !! 2 = Some true
  /\ length (log result.2) = 1.
Proof. repeat split. Qed.

(** * Chains of page requests *)

Lemma no_more_clean xs : no_more xs = true -> ends_with_more xs = false.
Proof.
  unfold no_more, ends_with_more. intros H.
  destruct (last xs) as [[|l]|] eqn:E; try reflexivity.
  apply last_Some in E as [ys ->].
  rewrite forallb_app in H. apply andb_true_iff in H as [_ H].
  discriminate.
Qed.

Lemma deliver_plain_mores base ws :
  forallb is_witem ws = true -> (deliver base ws).2 = [].
Proof.
  revert base. induction ws as [|[name|ids] ws IH]; intros base; simpl.
  - reflexivity.
  - intros H. specialize (IH base H). destruct (deliver base ws). exact IH.
  - discriminate.
Qed.

Lemma deliver_plain_no_more base ws :
  forallb is_witem ws = true -> no_more (deliver base ws).1 = true.
Proof.
  revert base. induction ws as [|[name|ids] ws IH]; intros base; simpl.
  - reflexivity.
  - intros H. specialize (IH base H). destruct (deliver base ws). exact IH.
  - discriminate.
Qed.

Lemma num_sub_0 n : num_sub n 0 = n.
Proof. destruct n; simpl; try reflexivity. by rewrite Z.sub_0_r. Qed.

Lemma num_sub_add n a b : num_sub (num_sub n a) b = num_sub n (a + b).
Proof. destruct n; simpl; try reflexivity. f_equal. lia. Qed.

Lemma same_source_refl A : same_source A A.
Proof. repeat split. Qed.

Lemma to_source_same A B e : same_source A B -> to_source B e -> to_source A e.
Proof.
  intros (Hu & Hm & _ & Hs & _). destruct e as [r|]; simpl; [|auto].
  rewrite Hu, Hm, Hs. auto.
Qed.

Lemma to_source_page_request B options :
  to_source B (PageCall (page_request B options)).
Proof.
  simpl. repeat split. unfold page_request. cbn [rq_qs].
  rewrite prop_defaults; reflexivity || discriminate.
Qed.

(** The chain that makes no request: the clone. *)
Lemma page_chain_short net fuel h B n :
  page_listing B ->
  num_le0 n || is_finished h B = true ->
  page_chain_outcome net fuel B n h
    (Resolved (length (listings h))) (clone_store h B).
Proof.
  intros [HmB HnB] Hshort.
  pose proof (no_more_clean _ HnB) as Hclean.
  unfold clone_store, clone_object, cloned_more, cloned_mores.
  rewrite HmB, constructor_clone_clean by assumption.
  split; [apply app_nil_r|].
  exists []. cbn [log listings].
  split; [by rewrite app_nil_r|].
  split; [simpl; lia|].
  split; [apply Forall_nil_2|].
  exists (with_more None B).
  split; [apply lookup_snoc_length|].
  split; [split; [reflexivity|exact HnB]|].
  split; [repeat split|].
  split; [|left; repeat split].
  exists []. rewrite app_nil_r. split; [reflexivity|].
  rewrite num_sub_0.
  apply orb_true_iff in Hshort as [Hshort|Hshort]; [by right|left].
  unfold is_finished in *. cbn [_more with_more _uri after before].
  rewrite HmB in Hshort. exact Hshort.
Qed.

(** A chain of page requests on a page Listing, against pages that carry
    no placeholder. *)
Lemma page_chain net T (Hplain : plain_pages net T) fuel :
  forall b options h out h' B n,
    listings h !! b = Some B ->
    _transform B = T ->
    page_listing B ->
    arg_amount options = VNum n ->
    fetch_more net fuel b options h = (out, h') ->
    page_chain_outcome net fuel B n h out h'.
Proof.
  induction fuel as [|fuel IH];
    intros b options h out h' B n Hb HT [HmB HnB] Hn Hrun.
  all: rewrite (fetch_more_eq _ _ _ _ _ _ _ Hn Hb), HmB in Hrun.
  all: pose proof (no_more_clean _ HnB) as Hclean.
  all: destruct (num_le0 n || is_finished h B) eqn:Hshort;
    [rewrite (_clone_run _ _ _ Hb) in Hrun; injection Hrun as <- <-;
     by apply page_chain_short|].
  - injection Hrun as <- <-. split; [reflexivity|].
    exists []. rewrite app_nil_r. repeat split; constructor.
  - rewrite (_fetch_more_regular_run _ _ _ _ _ _ Hb HmB) in Hrun.
    destruct (page_for net (log h) _) as [w|] eqn:Hw.
    2:{ injection Hrun as <- <-. split; [reflexivity|].
        eexists [_]. split; [reflexivity|]. split; [simpl; lia|].
        split; [constructor; [apply to_source_page_request|constructor]|].
        split; [reflexivity|discriminate]. }
    pose proof (Hplain _ _ _ Hw) as Hpage.
    rewrite HT in Hrun. set (page := T w) in *.
    set (C0 := constructor (clone_properties B None)) in *.
    assert (HC0 : C0 = with_more None B)
      by (apply constructor_clone_clean; assumption).
    set (C := with_after (w_after page)
                (with_before (w_before page)
                   (with_items
                      (items C0 ++ (deliver (length (mores h)) (w_items page)).1)
                      C0))).
    set (h1 := regular_store h B (parse_options options) page) in *.
    assert (HC : listings h1 !! length (listings h) = Some C)
      by apply lookup_snoc_length.
    assert (HTC : _transform C = T)
      by (subst C; rewrite HC0; simpl; exact HT).
    assert (HpC : page_listing C).
    { subst C. rewrite HC0. split; [reflexivity|]. simpl.
      unfold no_more. rewrite forallb_app. apply andb_true_iff.
      split; [exact HnB|by apply deliver_plain_no_more]. }
    assert (HsC : same_source B C)
      by (subst C; rewrite HC0; repeat split).
    assert (HnC : arg_amount (residual_options (parse_options options) page)
                  = VNum (num_sub n (length (w_items page)))).
    { unfold residual_options. cbn [arg_amount with_amount amount].
      rewrite (amount_of_parse_options _ _ Hn). reflexivity. }
    assert (Hm1 : mores h1 = mores h).
    { subst h1. unfold regular_store. cbn [mores].
      rewrite deliver_plain_mores by assumption. apply app_nil_r. }
    assert (Hl1 : log h1
                  = log h ++ [PageCall (page_request B (parse_options options))])
      by reflexivity.
    destruct (fetch_more net fuel (length (listings h))
                (residual_options (parse_options options) page) h1)
      as [out1 h2] eqn:Hrec.
    pose proof (IH _ _ _ _ _ C _ HC HTC HpC HnC Hrec)
      as (Hm2 & evs & Hl2 & Hlen & Hev & Hout).
    assert (Hh' : h' = h2).
    { unfold async in Hrun. rewrite Hrec in Hrun.
      destruct out1; injection Hrun as _ <-; reflexivity. }
    subst h2.
    split; [congruence|].
    exists (PageCall (page_request B (parse_options options)) :: evs).
    split; [rewrite Hl2, Hl1, <- app_assoc; reflexivity|].
    split; [simpl; lia|].
    split.
    { constructor; [apply to_source_page_request|].
      eapply Forall_impl; [exact Hev|]. intros e. by apply to_source_same. }
    unfold async in Hrun. rewrite Hrec in Hrun.
    destruct out1 as [r| e | e |]; injection Hrun as <-.
    + destruct Hout as (R & HR & HpR & HsR & (new & Hnew & Hend) & Hcur).
      exists R. split; [exact HR|]. split; [exact HpR|].
      split.
      { destruct HsC as (?&?&?&?&?&?&?&?), HsR as (?&?&?&?&?&?&?&?).
        repeat split; congruence. }
      split.
      { exists ((deliver (length (mores h)) (w_items page)).1 ++ new).
        split.
        - rewrite Hnew. subst C. rewrite HC0. simpl.
          by rewrite <- app_assoc.
        - rewrite length_app, length_deliver, <- num_sub_add. exact Hend. }
      right.
      destruct Hcur as [(Hlog & Ha & Hb')|(hist & r' & w' & Hlog & Hw' & Ha & Hb')].
      * exists (log h), (page_request B (parse_options options)), w.
        rewrite Hlog, Hl1, HT. fold page.
        repeat split; assumption.
      * exists hist, r', w'. replace (_transform B) with (_transform C)
          by (rewrite HTC; symmetry; exact HT).
        repeat split; assumption.
    + destruct Hout as [-> Hne]. split; [reflexivity|discriminate].
    + contradiction.
    + simpl. lia.
Qed.

Lemma last_page_plain : plain_pages last_page (fun w => w).
Proof.
  intros hist r w Hw. unfold last_page in Hw. cbn [page_for] in Hw.
  destruct hist; [|injection Hw as <-; reflexivity].
  destruct (rq_limit r) as [| | |[z| | |]|]; try discriminate;
    injection Hw as <-; [|reflexivity].
  simpl. destruct (Z.to_nat z) as [|[|[|k]]]; reflexivity.
Qed.

(** X1. Page Listings are kept: on a Listing without More node and
    without placeholder among its elements, against pages that carry no
    placeholder, [fetch_more] resolves to a Listing of the same kind, with
    the uri, method, query, show, transform, flag, limit and link id of
    the original, and no More object is made or changed on the way. *)
Theorem fetch_more_keeps_page_listing (net : network) (fuel : nat)
    (h h' : store) (a r : loc) (A : Listing) (options : fetch_arg) (n : num)
    (Ha : listings h !! a = Some A)
    (Hpage : page_listing A)
    (Hplain : plain_pages net (_transform A))
    (Hn : arg_amount options = VNum n)
    (Hrun : fetch_more net fuel a options h = (Resolved r, h')) :
  mores h' = mores h
  /\ exists R, listings h' !! r = Some R
               /\ _more R = None
               /\ no_more (items R) = true
               /\ same_source A R.
Proof.
  destruct (page_chain net _ Hplain fuel a options h _ h' A n
              Ha eq_refl Hpage Hn Hrun)
    as (Hm & evs & _ & _ & _ & R & HR & [HmR HnR] & Hs & _).
  split; [exact Hm|]. exists R. auto.
Qed.

Lemma fetch_more_keeps_page_listing_witness :
  let result := fetch_more last_page 2 0 (ArgValue (VNum (Fin 5))) posts_store in
  mores result.2 = []
  /\ exists R, listings result.2 !! 2 = Some R
               /\ _more R = None
               /\ no_more (items R) = true
               /\ same_source (constructor posts_options) R.
Proof.
  apply (fetch_more_keeps_page_listing last_page 2 posts_store _ 0 2
           (constructor posts_options) (ArgValue (VNum (Fin 5))) (Fin 5)).
  - vm_compute; reflexivity.
  - split; vm_compute; reflexivity.
  - exact last_page_plain.
  - vm_compute; reflexivity.
  - vm_compute; reflexivity.
Defined.







(** X5. [fetch_all] stops at the end only: on a page Listing, against
    pages that carry no placeholder, a call of [fetch_all] that resolves
    resolves to a finished Listing, whose elements are those of the
    original followed by the fetched ones. *)
Theorem fetch_all_finishes (net : network) (fuel : nat)
    (h h' : store) (a r : loc) (A : Listing) (options : fetch_options)
    (Ha : listings h !! a = Some A)
    (Hpage : page_listing A)
    (Hplain : plain_pages net (_transform A))
    (Hrun : fetch_all net fuel a options h = (Resolved r, h')) :
  exists R new,
    listings h' !! r = Some R
    /\ items R = items A ++ new
    /\ is_finished h' R = true.
Proof.
  unfold fetch_all in Hrun.
  destruct (page_chain net _ Hplain fuel a
              (ArgObject (with_amount (VNum PosInf) options)) h _ h' A PosInf
              Ha eq_refl Hpage eq_refl Hrun)
    as (_ & evs & _ & _ & _ & R & HR & _ & _ & (new & Hnew & Hend) & _).
  exists R, new. split; [exact HR|]. split; [exact Hnew|].
  destruct Hend as [Hend|Hend]; [exact Hend|discriminate].
Qed.

Lemma fetch_all_finishes_witness :
  let result :=
    fetch_all last_page 2 0 (mkFetch VUndefined VUndefined VUndefined)
      posts_store in
  exists R new,
    listings result.2 !! 2 = Some R
    /\ items R = [Item "p1"; Item "p2"] ++ new
    /\ is_finished result.2 R = true.
Proof.
  apply (fetch_all_finishes last_page 2 posts_store _ 0 2
           (constructor posts_options)
           (mkFetch VUndefined VUndefined VUndefined)).
  - vm_compute; reflexivity.
  - split; vm_compute; reflexivity.
  - exact last_page_plain.
  - vm_compute; reflexivity.
Defined.





Lemma deliver_plain_items base ws :
  forallb is_witem ws = true -> (deliver base ws).1 = wire_items ws.
Proof.
  revert base. induction ws as [|[name|ids] ws IH]; intros base; simpl.
  - reflexivity.
  - intros H. specialize (IH base H). destruct (deliver base ws).
    simpl in *. by rewrite IH.
  - discriminate.
Qed.

(** X7. One page that is long enough: when the page that answers the
    first request carries no placeholder and holds at least [amount]
    elements, [fetch_more] on an unfinished page Listing resolves after
    that one request, to a new Listing that holds the elements of the
    original followed by all of the page, with the cursors of the page;
    no More object is touched. *)
Theorem fetch_more_one_page (net : network) (fuel : nat) (h : store)
    (a : loc) (A : Listing) (options : fetch_arg) (z : Z) (w : wire_page)
    (Ha : listings h !! a = Some A)
    (Hpage : page_listing A)
    (Hunfinished : is_finished h A = false)
    (Hz : arg_amount options = VNum (Fin z))
    (Hpos : (0 < z)%Z)
    (Hw : page_for net (log h) (page_request A (parse_options options))
          = Some w)
    (Hplain : forallb is_witem (w_items (_transform A w)) = true)
    (Hlong : (z <= Z.of_nat (length (w_items (_transform A w))))%Z) :
  exists h' R,
    fetch_more net (S fuel) a options h
    = (Resolved (S (length (listings h))), h')
    /\ listings h' !! S (length (listings h)) = Some R
    /\ items R = items A ++ wire_items (w_items (_transform A w))
    /\ after R = w_after (_transform A w)
    /\ before R = w_before (_transform A w)
    /\ same_source A R
    /\ log h' = log h ++ [PageCall (page_request A (parse_options options))]
    /\ mores h' = mores h.
Proof.
  destruct Hpage as [HmA HnA].
  pose proof (no_more_clean _ HnA) as Hclean.
  rewrite (fetch_more_eq _ _ _ _ _ _ _ Hz Ha), Hunfinished, HmA.
  assert (Hle : num_le0 (Fin z) = false) by (apply Z.leb_gt; exact Hpos).
  rewrite Hle. cbn [orb].
  rewrite (_fetch_more_regular_run _ _ _ _ _ _ Ha HmA), Hw.
  set (page := _transform A w) in *.
  set (C0 := constructor (clone_properties A None)).
  assert (HC0 : C0 = with_more None A)
    by (apply constructor_clone_clean; assumption).
  set (C := with_after (w_after page)
              (with_before (w_before page)
                 (with_items
                    (items C0 ++ (deliver (length (mores h)) (w_items page)).1)
                    C0))).
  set (h1 := regular_store h A (parse_options options) page).
  assert (HC : listings h1 !! length (listings h) = Some C)
    by apply lookup_snoc_length.
  assert (HcleanC : ends_with_more (items C) = false).
  { subst C. rewrite HC0. simpl.
    apply ends_with_more_plain; [assumption|by apply deliver_plain]. }
  assert (HnC : arg_amount (residual_options (parse_options options) page)
                = VNum (Fin (z - Z.of_nat (length (w_items page))))).
  { unfold residual_options. cbn [arg_amount with_amount amount].
    rewrite (amount_of_parse_options _ _ Hz). reflexivity. }
  unfold async.
  rewrite (fetch_more_eq _ _ _ _ _ _ _ HnC HC).
  assert (Hdone : num_le0 (Fin (z - Z.of_nat (length (w_items page)))) = true)
    by (apply Z.leb_le; lia).
  rewrite Hdone. cbn [orb].
  rewrite (_clone_run _ _ _ HC).
  assert (Hlen1 : length (listings h1) = S (length (listings h))).
  { subst h1. unfold regular_store. cbn [listings].
    rewrite length_app. simpl. lia. }
  rewrite Hlen1.
  exists (clone_store h1 C), (clone_object h1 C).
  split; [reflexivity|].
  split.
  { unfold clone_store. cbn [listings]. rewrite <- Hlen1.
    apply lookup_snoc_length. }
  rewrite more_clone_object_clean by assumption.
  unfold cloned_more, clone_store, cloned_mores.
  assert (HmC : _more C = None) by (subst C; rewrite HC0; reflexivity).
  rewrite HmC. subst C. rewrite HC0.
  cbn [items after before with_more with_after with_before with_items
       log mores].
  rewrite deliver_plain_items by assumption.
  split; [reflexivity|]. split; [reflexivity|]. split; [reflexivity|].
  split; [repeat split|]. split; [reflexivity|].
  subst h1. unfold regular_store. cbn [mores].
  rewrite deliver_plain_mores by assumption. by rewrite !app_nil_r.
Qed.

Lemma fetch_more_one_page_witness :
  exists h' R,
    fetch_more last_page 1 0 (ArgValue (VNum (Fin 2))) posts_store
    = (Resolved 2, h')
    /\ listings h' !! 2 = Some R
    /\ items R = [Item "p1"; Item "p2"] ++ [Item "p3"; Item "p4"]
    /\ after R = VNull
    /\ before R = VNull
    /\ same_source (constructor posts_options) R
    /\ log h'
       = [] ++ [PageCall (page_request (constructor posts_options)
                            (parse_options (ArgValue (VNum (Fin 2)))))]
    /\ mores h' = [].
Proof.
  apply (fetch_more_one_page last_page 0 posts_store 0
           (constructor posts_options) (ArgValue (VNum (Fin 2))) 2
           (mkPage [WItem "p3"; WItem "p4"] VNull VNull)).
  - vm_compute; reflexivity.
  - split; vm_compute; reflexivity.
  - vm_compute; reflexivity.
  - vm_compute; reflexivity.
  - lia.
  - vm_compute; reflexivity.
  - vm_compute; reflexivity.
  - simpl. lia.
Defined.

(** * fetch_until, fetch_all and the argument of fetch_more *)

(** X8. [fetch_until] keeps to the length: on a Listing whose last
    element is not a placeholder and which has a More node or is not
    flagged as a comment list, with a requester whose pages are no longer
    than the limit asked for, the Listing that [fetch_until({length: N})]
    resolves to is no longer than the larger of [N] and the length it
    had. *)
Theorem fetch_until_max_length (net : network) (fuel : nat) (h h' : store)
    (a r : loc) (A : Listing) (options : fetch_options) (N : Z)
    (Ha : listings h !! a = Some A)
    (Hflag : _more A <> None \/ _is_comment_list A = false)
    (HN : length_ options = VNum (Fin N))
    (Hlim : honours_limit net (_transform A))
    (Hrun : fetch_until net fuel a options h = (Resolved r, h')) :
  exists R,
    listings h' !! r = Some R
    /\ (Z.of_nat (length (items R))
        <= Z.max (Z.of_nat (length (items A))) N)%Z.
Proof.
  unfold fetch_until, bind, read_listing in Hrun.
  rewrite HN, Ha in Hrun.
  destruct (fetch_more_bounded net _ Hlim fuel a
              (ArgObject
                 (with_amount (VNum (num_sub (Fin N) (length (items A))))
                    options))
              h r h' A (Fin (N - Z.of_nat (length (items A))))
              Ha eq_refl Hflag eq_refl Hrun) as (R & HR & Hgrow).
  exists R. split; [exact HR|].
  unfold growth_ok in Hgrow. lia.
Qed.

Lemma fetch_until_max_length_witness :
  let result := fetch_until last_page 2 0 (length_only (Fin 3)) posts_store in
  exists R,
    listings result.2 !! 2 = Some R
    /\ (Z.of_nat (length (items R)) <= Z.max 2 3)%Z.
Proof.
  apply (fetch_until_max_length last_page 2 posts_store _ 0 2
           (constructor posts_options) (length_only (Fin 3)) 3).
  - vm_compute; reflexivity.
  - right. vm_compute; reflexivity.
  - vm_compute; reflexivity.
  - exact last_page_honours_limit.
  - vm_compute; reflexivity.
Defined.

(** X9. The forms of the argument: [fetch_more(v)], with a bare value,
    [fetch_more({amount: v})] and [fetch_more({amount: v, skip_replies:
    false})] are the same call, whatever [v] is and whatever else the
    object holds: same outcome, same objects, same requests. *)
Theorem fetch_more_argument_forms (net : network) (fuel : nat) (a : loc)
    (h : store) (v len : jsval) :
  fetch_more net fuel a (ArgObject (mkFetch v VUndefined len)) h
  = fetch_more net fuel a (ArgValue v) h
  /\ fetch_more net fuel a (ArgObject (mkFetch v (VBool false) len)) h
     = fetch_more net fuel a (ArgValue v) h.
Proof.
  split; apply fetch_more_same_fetch; split; reflexivity.
Qed.

(** X10. [fetch_until] without bound is [fetch_all]:
    [fetch_until({length: Infinity})] and [fetch_all({})] are the same
    call, on any Listing and in any store. *)
Theorem fetch_until_infinity_is_fetch_all (net : network) (fuel : nat)
    (a : loc) (h : store) :
  fetch_until net fuel a (length_only PosInf) h
  = fetch_all net fuel a (mkFetch VUndefined VUndefined VUndefined) h.
Proof.
  unfold fetch_until, fetch_all, bind, read_listing. cbn [length_ length_only].
  destruct (listings h !! a) as [A|] eqn:Ha.
  - apply fetch_more_same_fetch. split; reflexivity.
  - symmetry. eapply fetch_more_missing; [reflexivity|exact Ha].
Qed.

(** * The query string *)

Lemma prop_not_in k (o : jsobj) : k ∉ o.*1 -> prop k o = VUndefined.
Proof.
  induction o as [|[k' v'] o IH]; simpl; [reflexivity|].
  intros Hk. apply not_elem_of_cons in Hk as [Hne Hk].
  destruct (String.eqb k k') eqn:E; [|by apply IH].
  apply String.eqb_eq in E. contradiction.
Qed.

(** [_.defaults(dst, src)], read at one key: the value of [dst] unless it
    is [undefined], and then the value of [src]. *)
Lemma prop_defaults_full k src :
  NoDup src.*1 ->
  forall dst,
    prop k (defaults dst src)
    = match prop k dst with VUndefined => prop k src | v => v end.
Proof.
  unfold defaults.
  induction src as [|[k' v'] src IH]; intros Hnd dst.
  - simpl. destruct (prop k dst); reflexivity.
  - rewrite fmap_cons in Hnd. apply NoDup_cons in Hnd as [Hk' Hnd].
    cbn [fold_left prop fst snd]. rewrite (IH Hnd). clear IH.
    destruct (String.eqb k k') eqn:E.
    + apply String.eqb_eq in E. subst k'.
      destruct (prop k dst) eqn:Ed; rewrite ?Ed; try reflexivity.
      rewrite prop_set_prop, String.eqb_refl.
      destruct v'; try reflexivity. by apply prop_not_in.
    + destruct (prop k' dst); try reflexivity.
      rewrite prop_set_prop, E. reflexivity.
Qed.

(** X11. The query string of a page request: [limit] and [show] are
    those of the call, whatever [_query] says; a cursor is the one of the
    Listing, unless that is [undefined], and then the one of [_query];
    every other key is passed on from [_query]. *)
Theorem page_request_query (A : Listing) (options : fetch_options)
    (Hkeys : NoDup (_query A).*1) :
  let qs := rq_qs (page_request A options) in
  prop "limit" qs
  = VNum (if _is_comment_list A then num_succ (amount_of options)
          else amount_of options)
  /\ prop "show" qs = VStr (_show A)
  /\ prop "after" qs
     = match after A with VUndefined => prop "after" (_query A) | v => v end
  /\ prop "before" qs
     = match before A with VUndefined => prop "before" (_query A) | v => v end
  /\ (forall k, prop k (own_qs A options) = VUndefined ->
                prop k qs = prop k (_query A)).
Proof.
  unfold page_request. cbn [rq_qs]. fold (own_qs A options).
  repeat split; try (intros k Hk);
    rewrite (prop_defaults_full _ _ Hkeys); try reflexivity.
  rewrite Hk. reflexivity.
Qed.

Lemma page_request_query_witness :
  let qs := rq_qs (page_request (constructor replies_options)
                     (mkFetch (VNum (Fin 5)) (VBool false) VUndefined)) in
  prop "limit" qs = VNum (Fin 6)
  /\ prop "show" qs = VStr "all"
  /\ prop "after" qs = VUndefined
  /\ prop "before" qs = VUndefined
  /\ (forall k,
        prop k (own_qs (constructor replies_options)
                  (mkFetch (VNum (Fin 5)) (VBool false) VUndefined))
        = VUndefined ->
        prop k qs = prop k [("comment", VStr "c0")]).
Proof.
  apply (page_request_query (constructor replies_options)
           (mkFetch (VNum (Fin 5)) (VBool false) VUndefined)).
  simpl. apply NoDup_singleton.
Defined.

(** * Comment lists paginated by page requests *)

(** On a page Listing flagged as a comment list, every request asks for
    one element more than is outstanding. *)
Lemma fetch_more_flagged_bounded net T (Hlim : honours_limit net T)
    (Hplain : plain_pages net T) fuel :
  forall b options h r h' B z,
    listings h !! b = Some B ->
    _transform B = T ->
    page_listing B ->
    _is_comment_list B = true ->
    arg_amount options = VNum (Fin z) ->
    fetch_more net fuel b options h = (Resolved r, h') ->
    exists R,
      listings h' !! r = Some R
      /\ (Z.of_nat (length (items R))
          <= Z.of_nat (length (items B)) + Z.max 0 (z + 1))%Z.
Proof.
  induction fuel as [|fuel IH];
    intros b options h r h' B z Hb HT [HmB HnB] Hflag Hz Hrun.
  all: pose proof (no_more_clean _ HnB) as Hclean.
  all: rewrite (fetch_more_eq _ _ _ _ _ _ _ Hz Hb), HmB in Hrun.
  all: destruct (num_le0 (Fin z) || is_finished h B) eqn:Hshort;
    [rewrite (_clone_run _ _ _ Hb) in Hrun; injection Hrun as <- <-;
     exists (clone_object h B); split; [apply lookup_snoc_length|];
     rewrite more_clone_object_clean by assumption; simpl; lia|].
  - discriminate.
  - apply orb_false_iff in Hshort as [Hpos _].
    simpl in Hpos. apply Z.leb_gt in Hpos.
    rewrite (_fetch_more_regular_run _ _ _ _ _ _ Hb HmB) in Hrun.
    destruct (page_for net (log h) _) as [w|] eqn:Hw; [|discriminate].
    apply async_resolved in Hrun.
    pose proof (Hplain _ _ _ Hw) as Hpage.
    assert (Hlen : (Z.of_nat (length (w_items (T w))) <= z + 1)%Z).
    { apply (Hlim _ _ _ (Fin (z + 1)) Hw).
      - rewrite rq_limit_page_request, Hflag,
          (amount_of_parse_options _ _ Hz). reflexivity.
      - apply Z.ltb_lt. lia. }
    rewrite HT in Hrun. set (page := T w) in *.
    set (C0 := constructor (clone_properties B None)).
    assert (HC0 : C0 = with_more None B)
      by (apply constructor_clone_clean; assumption).
    set (C := with_after (w_after page)
                (with_before (w_before page)
                   (with_items
                      (items C0 ++ (deliver (length (mores h)) (w_items page)).1)
                      C0))).
    assert (HC : listings (regular_store h B (parse_options options) page)
                 !! length (listings h) = Some C)
      by apply lookup_snoc_length.
    assert (HTC : _transform C = T)
      by (subst C; rewrite HC0; exact HT).
    assert (HpC : page_listing C).
    { subst C. rewrite HC0. split; [reflexivity|]. simpl.
      unfold no_more. rewrite forallb_app. apply andb_true_iff.
      split; [exact HnB|by apply deliver_plain_no_more]. }
    assert (HfC : _is_comment_list C = true)
      by (subst C; rewrite HC0; exact Hflag).
    assert (HzC : arg_amount (residual_options (parse_options options) page)
                  = VNum (Fin (z - Z.of_nat (length (w_items page))))).
    { unfold residual_options. cbn [arg_amount with_amount amount].
      rewrite (amount_of_parse_options _ _ Hz). reflexivity. }
    destruct (IH _ _ _ _ _ C _ HC HTC HpC HfC HzC Hrun) as (R & HR & Hgrow).
    exists R. split; [exact HR|].
    subst C. rewrite HC0 in Hgrow. simpl in Hgrow.
    rewrite length_app, length_deliver in Hgrow. lia.
Qed.

Lemma three_replies_honours_limit : honours_limit three_replies (fun w => w).
Proof.
  intros hist r w lim Hw Hr Hpos. unfold three_replies in Hw.
  cbn [page_for] in Hw. rewrite Hr in Hw.
  destruct hist; [|discriminate].
  destruct lim as [z| | |]; try discriminate. injection Hw as <-.
  simpl in Hpos. apply Z.ltb_lt in Hpos. simpl.
  rewrite length_take. simpl. lia.
Qed.

Lemma three_replies_plain : plain_pages three_replies (fun w => w).
Proof.
  intros hist r w Hw. unfold three_replies in Hw. cbn [page_for] in Hw.
  destruct hist; [|discriminate].
  destruct (rq_limit r) as [| | |[z| | |]|]; try discriminate.
  injection Hw as <-. simpl.
  destruct (Z.to_nat z) as [|[|[|[|k]]]]; reflexivity.
Qed.

(** X12. One more for a comment list: on a page Listing flagged as a
    comment list, with a requester whose pages carry no placeholder and
    are no longer than the limit asked for, [fetch_more] with an amount
    [z > 0] appends at most [z + 1] elements (each request asks for one
    more than is outstanding). *)
Theorem fetch_more_flagged_one_more (net : network) (fuel : nat)
    (h h' : store) (a r : loc) (A : Listing) (options : fetch_arg) (z : Z)
    (Ha : listings h !! a = Some A)
    (Hpage : page_listing A)
    (Hflag : _is_comment_list A = true)
    (Hz : arg_amount options = VNum (Fin z))
    (Hpos : (0 < z)%Z)
    (Hlim : honours_limit net (_transform A))
    (Hplain : plain_pages net (_transform A))
    (Hrun : fetch_more net fuel a options h = (Resolved r, h')) :
  exists R new,
    listings h' !! r = Some R
    /\ items R = items A ++ new
    /\ (Z.of_nat (length new) <= z + 1)%Z.
Proof.
  destruct Hpage as [HmA HnA].
  pose proof (no_more_clean _ HnA) as Hclean.
  destruct (fetch_more_extends net (items A) Hclean fuel a options h r h' A []
              Ha (eq_sym (app_nil_r _)) Hrun) as (R & new & HR & Hnew).
  destruct (fetch_more_flagged_bounded net _ Hlim Hplain fuel a options
              h r h' A z Ha eq_refl (conj HmA HnA) Hflag Hz Hrun)
    as (R' & HR' & Hgrow).
  rewrite HR in HR'. injection HR' as <-.
  exists R, new. split; [exact HR|]. split; [exact Hnew|].
  rewrite Hnew, length_app in Hgrow. lia.
Qed.

Lemma fetch_more_flagged_one_more_witness :
  let result :=
    fetch_more three_replies 1 0 (ArgValue (VNum (Fin 1))) replies_store in
  exists R new,
    listings result.2 !! 2 = Some R
    /\ items R = [] ++ new
    /\ (Z.of_nat (length new) <= 1 + 1)%Z.
Proof.
  apply (fetch_more_flagged_one_more three_replies 1 replies_store _ 0 2
           (constructor replies_options) (ArgValue (VNum (Fin 1))) 1).
  - vm_compute; reflexivity.
  - split; vm_compute; reflexivity.
  - vm_compute; reflexivity.
  - vm_compute; reflexivity.
  - lia.
  - exact three_replies_honours_limit.
  - exact three_replies_plain.
  - vm_compute; reflexivity.
Defined.

(** * ReplyableContent *)

(** The default of [remove]: [remove()], [remove({})] and
    [remove({spam: false})] are the same call, and post [spam: false]
    for the object's fullname to api/remove; [remove(null)] throws a
    TypeError and posts nothing. *)
Theorem remove_defaults (ac : ReplyableContent.requester)
    (this : ReplyableContent.content) (l : list ReplyableContent.post) :
  let p := ReplyableContent.mkPost "api/remove"
             [("spam", VBool false);
              ("id", VStr (ReplyableContent.name this))] in
  ReplyableContent.remove ac this ReplyableContent.Missing l
  = ((if ac l p then Resolved this else Rejected TransportError), l ++ [p])
  /\ ReplyableContent.remove ac this (ReplyableContent.Given VUndefined) l
     = ReplyableContent.remove ac this ReplyableContent.Missing l
  /\ ReplyableContent.remove ac this (ReplyableContent.Given (VBool false)) l
     = ReplyableContent.remove ac this ReplyableContent.Missing l
  /\ ReplyableContent.remove ac this ReplyableContent.Null l
     = (Thrown TypeError, l).
Proof.
  repeat split.
  unfold ReplyableContent.remove, ReplyableContent.return_,
    ReplyableContent.then_, ReplyableContent._post.
  destruct (ac l _); reflexivity.
Qed.

(** Every action is one post about the object, followed by the object
    itself. *)
Lemma action_is_one_post ac c this :
  ReplyableContent.destructurable c ->
  exists p,
    ReplyableContent.target p = VStr (ReplyableContent.name this)
    /\ ReplyableContent.invoke ac c this
       = ReplyableContent.return_ (ReplyableContent._post ac p) this.
Proof.
  destruct c as [[| |[]]| |[| |v]| | |]; simpl; try contradiction; intros _;
    (eexists; split; [|reflexivity]; reflexivity).
Qed.

(** X13. Chaining two actions: an action whose argument is not [null]
    makes exactly one post about the object it is called on, and resolves
    to that very object, so that a second action can be chained to it;
    when the first post fails, the chain rejects with the error of the
    transport and the second post is not made. *)
Theorem actions_chain (ac : ReplyableContent.requester)
    (c1 c2 : ReplyableContent.call)
    (this : ReplyableContent.content) (l : list ReplyableContent.post)
    (H1 : ReplyableContent.destructurable c1)
    (H2 : ReplyableContent.destructurable c2) :
  exists p q,
    ReplyableContent.target p = VStr (ReplyableContent.name this)
    /\ ReplyableContent.target q = VStr (ReplyableContent.name this)
    /\ ReplyableContent.then_ (ReplyableContent.invoke ac c1 this)
         (ReplyableContent.invoke ac c2) l
       = if ac l p
         then ((if ac (l ++ [p]) q then Resolved this
                else Rejected TransportError), l ++ [p; q])
         else (Rejected TransportError, l ++ [p]).
Proof.
  destruct (action_is_one_post ac c1 this H1) as (p & Hp & E1).
  destruct (action_is_one_post ac c2 this H2) as (q & Hq & E2).
  exists p, q. split; [exact Hp|]. split; [exact Hq|].
  unfold ReplyableContent.then_ at 1. rewrite E1.
  unfold ReplyableContent.return_ at 1, ReplyableContent.then_ at 1,
    ReplyableContent._post at 1.
  destruct (ac l p); [|reflexivity].
  rewrite E2.
  unfold ReplyableContent.return_, ReplyableContent.then_,
    ReplyableContent._post.
  rewrite <- app_assoc. simpl.
  destruct (ac (l ++ [p]) q); reflexivity.
Qed.

Lemma actions_chain_witness :
  let ac : ReplyableContent.requester := fun _ _ => true in
  let this := ReplyableContent.mkContent "t1_c08pp5z" in
  exists p q,
    ReplyableContent.target p = VStr "t1_c08pp5z"
    /\ ReplyableContent.target q = VStr "t1_c08pp5z"
    /\ ReplyableContent.then_
         (ReplyableContent.invoke ac
            (ReplyableContent.Remove (ReplyableContent.Given (VBool true)))
            this)
         (ReplyableContent.invoke ac ReplyableContent.Approve) []
       = if ac [] p
         then ((if ac ([] ++ [p]) q then Resolved this
                else Rejected TransportError), [] ++ [p; q])
         else (Rejected TransportError, [] ++ [p]).
Proof.
  intros ac this.
  apply (actions_chain ac
           (ReplyableContent.Remove (ReplyableContent.Given (VBool true)))
           ReplyableContent.Approve this []).
  - exact I.
  - exact I.
Defined.

(** * Chains that end *)

Lemma fetch_more_progress net T (Hplain : plain_pages net T)
    (Hfull : no_empty_page net T) fuel :
  forall b options h B z,
    listings h !! b = Some B ->
    _transform B = T ->
    page_listing B ->
    arg_amount options = VNum (Fin z) ->
    (z <= Z.of_nat fuel)%Z ->
    (fetch_more net fuel b options h).1 <> OutOfFuel
    /\ length (log (fetch_more net fuel b options h).2)
       <= length (log h) + Z.to_nat z.
Proof.
  induction fuel as [|fuel IH];
    intros b options h B z Hb HT [HmB HnB] Hz Hfuel.
  all: pose proof (no_more_clean _ HnB) as Hclean.
  all: rewrite (fetch_more_eq _ _ _ _ _ _ _ Hz Hb), HmB.
  all: destruct (num_le0 (Fin z) || is_finished h B) eqn:Hshort;
    [rewrite (_clone_run _ _ _ Hb); split; [discriminate|simpl; lia]|].
  all: apply orb_false_iff in Hshort as [Hpos _];
    simpl in Hpos; apply Z.leb_gt in Hpos.
  - lia.
  - rewrite (_fetch_more_regular_run _ _ _ _ _ _ Hb HmB).
    destruct (page_for net (log h) _) as [w|] eqn:Hw;
      [|split; [discriminate|simpl; rewrite length_app; simpl; lia]].
    pose proof (Hplain _ _ _ Hw) as Hpage.
    pose proof (Hfull _ _ _ Hw) as Hne.
    rewrite HT. set (page := T w) in *.
    set (C0 := constructor (clone_properties B None)).
    assert (HC0 : C0 = with_more None B)
      by (apply constructor_clone_clean; assumption).
    set (C := with_after (w_after page)
                (with_before (w_before page)
                   (with_items
                      (items C0 ++ (deliver (length (mores h)) (w_items page)).1)
                      C0))).
    set (h1 := regular_store h B (parse_options options) page).
    assert (HC : listings h1 !! length (listings h) = Some C)
      by apply lookup_snoc_length.
    assert (HTC : _transform C = T)
      by (subst C; rewrite HC0; exact HT).
    assert (HpC : page_listing C).
    { subst C. rewrite HC0. split; [reflexivity|]. simpl.
      unfold no_more. rewrite forallb_app. apply andb_true_iff.
      split; [exact HnB|by apply deliver_plain_no_more]. }
    assert (HzC : arg_amount (residual_options (parse_options options) page)
                  = VNum (Fin (z - Z.of_nat (length (w_items page))))).
    { unfold residual_options. cbn [arg_amount with_amount amount].
      rewrite (amount_of_parse_options _ _ Hz). reflexivity. }
    destruct (IH _ _ h1 C _ HC HTC HpC HzC ltac:(lia)) as [Hout Hlog].
    unfold async.
    destruct (fetch_more net fuel (length (listings h))
                (residual_options (parse_options options) page) h1)
      as [out h2].
    cbn [fst snd] in Hout, Hlog.
    assert (Hl1 : length (log h1) = S (length (log h))).
    { subst h1. unfold regular_store. cbn [log].
      rewrite length_app. simpl. lia. }
    split.
    + destruct out; cbn [fst]; congruence.
    + destruct out; cbn [snd]; lia.
Qed.

Lemma three_new_posts_plain : plain_pages three_new_posts (fun w => w).
Proof.
  intros hist r w Hw. unfold three_new_posts in Hw. cbn [page_for] in Hw.
  destruct (rq_limit r) as [| | |[z| | |]|]; try discriminate.
  destruct (0 <? z)%Z; [|discriminate].
  injection Hw as <-. simpl.
  destruct (Z.to_nat z) as [|[|[|[|k]]]]; reflexivity.
Qed.

Lemma three_new_posts_no_empty_page :
  no_empty_page three_new_posts (fun w => w).
Proof.
  intros hist r w Hw. unfold three_new_posts in Hw. cbn [page_for] in Hw.
  destruct (rq_limit r) as [| | |[z| | |]|]; try discriminate.
  destruct (0 <? z)%Z eqn:Hz; [|discriminate].
  apply Z.ltb_lt in Hz.
  injection Hw as <-. simpl. rewrite length_take. simpl. lia.
Qed.

(** X14. A chain that ends: on a page Listing, when every page that is
    delivered carries no placeholder and holds at least one element,
    [fetch_more] with an amount [z] ends, resolved or rejected, after at
    most [z] requests: fuel for [z] requests is never used up. *)
Theorem fetch_more_terminates (net : network) (fuel : nat) (h : store)
    (a : loc) (A : Listing) (options : fetch_arg) (z : Z)
    (Ha : listings h !! a = Some A)
    (Hpage : page_listing A)
    (Hz : arg_amount options = VNum (Fin z))
    (Hfuel : (z <= Z.of_nat fuel)%Z)
    (Hplain : plain_pages net (_transform A))
    (Hfull : no_empty_page net (_transform A)) :
  (fetch_more net fuel a options h).1 <> OutOfFuel
  /\ length (log (fetch_more net fuel a options h).2)
     <= length (log h) + Z.to_nat z.
Proof.
  exact (fetch_more_progress net _ Hplain Hfull fuel a options h A z
           Ha eq_refl Hpage Hz Hfuel).
Qed.

Lemma fetch_more_terminates_witness :
  (fetch_more three_new_posts 5 0 (ArgValue (VNum (Fin 5))) posts_store).1
  <> OutOfFuel
  /\ length (log (fetch_more three_new_posts 5 0 (ArgValue (VNum (Fin 5)))
                    posts_store).2)
     <= 0 + Z.to_nat 5.
Proof.
  apply (fetch_more_terminates three_new_posts 5 posts_store 0
           (constructor posts_options) (ArgValue (VNum (Fin 5))) 5).
  - vm_compute; reflexivity.
  - split; vm_compute; reflexivity.
  - vm_compute; reflexivity.
  - lia.
  - exact three_new_posts_plain.
  - exact three_new_posts_no_empty_page.
Defined.



